(** * Row reordering in the table-r demo tables

    A shallow embedding of the drag-end handlers of the table variants
    (SecondTable.tsx, VirtuosoTable.tsx, DnDKitTable.tsx, WindowTable.tsx,
    the VirtualizedDraggableTable and the ThirdVirtualizedDraggableTable)
    and of the JavaScript array primitives they are written with.

    Arrays live in a store, because the handlers copy the [data] prop with
    a spread and then splice the copy in place; the sort state and the drag
    state of a component are its React state; a call of the [onReorder]
    prop is recorded in a log. *)

From stdpp Require Import gmap strings list pretty sorting.

Local Open Scope Z_scope.

(** ** Rows *)

(** [id: string | number]. Numeric identifiers are taken to be integers. *)
Inductive RowId : Type :=
  | NumId (n : Z)
  | StrId (s : string).

Global Instance RowId_eq_dec : EqDecision RowId.
Proof. solve_decision. Defined.

(** [Number.isSafeInteger(n)]: the integers a Number holds exactly, each
    apart from its neighbours. *)
Definition safe_integer (n : Z) : Prop := - (2 ^ 53 - 1) ≤ n ≤ 2 ^ 53 - 1.

Definition safe_id (i : RowId) : Prop :=
  match i with
  | NumId n => safe_integer n
  | StrId _ => True
  end.

Global Instance safe_id_dec (i : RowId) : Decision (safe_id i).
Proof. destruct i; unfold safe_id, safe_integer; apply _. Defined.

(** [String(id)]: the string itself, and for a number its decimal
    numeral. That is what JavaScript prints for the safe integers; past
    them a Number is a rounded value, printed with the shortest digits
    that give it back and, from 1e21, in exponent form, which this
    definition does not follow. A statement about the text of an
    identifier speaks of the program where the identifier has
    [safe_id]. *)
Definition String_ (i : RowId) : string :=
  match i with
  | NumId n => pretty n
  | StrId s => s
  end.

(** A row object. No handler ever writes to a row, so a reference to the
    object is modelled by the object together with its address [ref];
    [===] on objects compares addresses. *)
Record Row : Type := mkRow {
  ref : positive;
  id : RowId;
  fields : list (string * string)
}.

Global Instance Row_eq_dec : EqDecision Row.
Proof. solve_decision. Defined.

(** What an array slot or a variable can hold here. *)
Inductive Val : Type :=
  | undefined
  | obj (r : Row).

Global Instance Val_eq_dec : EqDecision Val.
Proof. solve_decision. Defined.

(** [item.id]: a TypeError ([None]) on [undefined]. *)
Definition get_id (item : Val) : option RowId :=
  match item with
  | undefined => None
  | obj r => Some (id r)
  end.

(** [x === y] on slots. *)
Definition strict_eq (x y : Val) : bool :=
  match x, y with
  | undefined, undefined => true
  | obj r, obj r' => bool_decide (ref r = ref r')
  | _, _ => false
  end.

(** ** JavaScript array primitives, on the contents of an array *)

Module Js.

(** The clamping of a relative start index (Array.prototype.splice). *)
Definition relative_start (len start : Z) : Z :=
  if start <? 0 then Z.max (len + start) 0 else Z.min start len.

(** [arr.splice(start, deleteCount, ...items)]: the contents of [arr]
    afterwards and the array of removed elements. *)
Definition splice {A : Type} (arr : list A) (start deleteCount : Z)
    (items : list A) : list A * list A :=
  let len := Z.of_nat (length arr) in
  let s := relative_start len start in
  let dc := Z.min (Z.max deleteCount 0) (len - s) in
  (take (Z.to_nat s) arr ++ items ++ drop (Z.to_nat (s + dc)) arr,
   take (Z.to_nat dc) (drop (Z.to_nat s) arr)).

(** [arr[i]] for a number [i]: [undefined] outside the array. *)
Definition index (arr : list Val) (i : Z) : Val :=
  if i <? 0 then undefined else default undefined (arr !! Z.to_nat i).

(** [arr.findIndex(cb)] scanning from position [i]; [None] when the
    callback throws. *)
Fixpoint findIndex_from {A : Type} (cb : A → option bool) (arr : list A)
    (i : Z) : option Z :=
  match arr with
  | [] => Some (-1)
  | x :: rest =>
      match cb x with
      | None => None
      | Some true => Some i
      | Some false => findIndex_from cb rest (i + 1)
      end
  end.

Definition findIndex {A : Type} (cb : A → option bool) (arr : list A)
    : option Z :=
  findIndex_from cb arr 0.

(** [arr.indexOf(x)], strict equality. *)
Fixpoint indexOf_from (x : Val) (arr : list Val) (i : Z) : Z :=
  match arr with
  | [] => -1
  | y :: rest => if strict_eq y x then i else indexOf_from x rest (i + 1)
  end.

Definition indexOf (x : Val) (arr : list Val) : Z := indexOf_from x arr 0.

(** [const [movedItem] = removed]. *)
Definition first (removed : list Val) : Val := default undefined (head removed).

End Js.

(** ** The store, the component state and the handler monad *)

Abbreviation loc := positive.

(** A column sort of the table engine: [{ id, desc }]. *)
Record ColumnSort : Type := mkSort { column : string; desc : bool }.

Definition SortingState : Type := list ColumnSort.

(** [St] is the React state of the component at hand. *)
Record World (St : Type) : Type := mkWorld {
  heap : gmap loc (list Val);
  reorders : list loc;
  state : St
}.
Arguments mkWorld {St} _ _ _.
Arguments heap {St} _.
Arguments reorders {St} _.
Arguments state {St} _.

Inductive Result (St A : Type) : Type :=
  | Threw
  | Returned (a : A) (w : World St).
Arguments Threw {St A}.
Arguments Returned {St A} _ _.

Definition M (St A : Type) : Type := World St → Result St A.

Definition ret {St A} (a : A) : M St A := λ w, Returned a w.

Definition bind {St A B} (m : M St A) (k : A → M St B) : M St B :=
  λ w, match m w with
       | Threw => Threw
       | Returned a w' => k a w'
       end.

Definition throw {St A} : M St A := λ _, Threw.

Notation "x <- m ;; k" := (bind m (λ x, k))
  (at level 100, m at next level, right associativity).
Notation "m ;;; k" := (bind m (λ _, k))
  (at level 100, right associativity).

(** A JavaScript expression that may raise a TypeError. *)
Definition try {St A} (o : option A) : M St A :=
  match o with
  | Some a => ret a
  | None => throw
  end.

(** The contents of the array at [l]. *)
Definition read {St} (l : loc) : M St (list Val) :=
  λ w, match heap w !! l with
       | Some arr => Returned arr w
       | None => Threw
       end.

Definition write {St} (l : loc) (arr : list Val) : M St unit :=
  λ w, Returned tt (mkWorld (<[l := arr]> (heap w)) (reorders w) (state w)).

(** [[...arr]] and [arr.slice()]: a new array with the same elements. *)
Definition spread {St} (l : loc) : M St loc :=
  arr <- read l ;;
  λ w, let l' := fresh (dom (heap w)) in
       Returned l' (mkWorld (<[l' := arr]> (heap w)) (reorders w) (state w)).

(** [arr.splice(start, deleteCount, ...items)] on the array at [l], in
    place. *)
Definition splice {St} (l : loc) (start deleteCount : Z) (items : list Val)
    : M St (list Val) :=
  arr <- read l ;;
  let '(arr', removed) := Js.splice arr start deleteCount items in
  write l arr' ;;;
  ret removed.

Definition findIndex {St} (l : loc) (cb : Val → option bool) : M St Z :=
  arr <- read l ;;
  try (Js.findIndex cb arr).

Definition indexOf {St} (l : loc) (x : Val) : M St Z :=
  arr <- read l ;;
  ret (Js.indexOf x arr).

Definition index {St} (l : loc) (i : Z) : M St Val :=
  arr <- read l ;;
  ret (Js.index arr i).

Definition get {St} : M St St := λ w, Returned (state w) w.

Definition put {St} (s : St) : M St unit :=
  λ w, Returned tt (mkWorld (heap w) (reorders w) s).

(** The props the handlers read. [onReorder] is optional: [true] when the
    caller passed one. *)
Record Props : Type := mkProps {
  data : loc;
  onReorder : bool;
  showSortableColumn : bool
}.

(** [onReorder(newData)]: the callback belongs to the caller, the call is
    logged with the array it received. *)
Definition call_onReorder {St} (newData : loc) : M St unit :=
  λ w, Returned tt (mkWorld (heap w) (reorders w ++ [newData]) (state w)).

(** [onReorder?.(newData)]. *)
Definition call_onReorder_opt {St} (p : Props) (newData : loc) : M St unit :=
  if onReorder p then call_onReorder newData else ret tt.

(** The drag-end event of the drag-and-drop library: [active.id] and, when
    a drop target is hovered, [over.id]. *)
Record DragEndEvent : Type := mkDragEnd {
  active : RowId;
  over : option RowId
}.

(** [(item) => item.id === x]. *)
Definition id_is (x : RowId) (item : Val) : option bool :=
  i ← get_id item; Some (bool_decide (i = x)).

(** ** SecondTable.tsx *)

Module SecondTable.

Record State : Type := mkState { sorting : SortingState }.

Definition handleDragEnd (p : Props) (event : DragEndEvent) : M State unit :=
  match over event with
  | Some over_id =>
      if bool_decide (active event ≠ over_id) then
        oldIndex <- findIndex (data p) (id_is (active event)) ;;
        newIndex <- findIndex (data p) (id_is over_id) ;;
        newData <- spread (data p) ;;
        splice newData oldIndex 1 [] ;;;
        moved <- index (data p) oldIndex ;;
        splice newData newIndex 0 [moved] ;;;
        call_onReorder_opt p newData
      else ret tt
  | None => ret tt
  end.

(** The DndContext of this table registers no [onDragCancel]. *)
Definition onDragCancel : M State unit := ret tt.

End SecondTable.

(** ** arrayMove of the drag-and-drop library *)

(** Modelled from the spec: [arrayMove] is imported from @dnd-kit/sortable,
    a library, and has no source in this repository. The specification
    has the move take the element at the source index out and put it back
    at the target index of the array after the removal; the model does so
    with the statements of the library,
    [const newArray = array.slice();
     newArray.splice(to < 0 ? newArray.length + to : to, 0,
                     newArray.splice(from, 1)[0]);
     return newArray;]
    where the first argument of the outer splice is evaluated before the
    inner splice runs. *)

Module DndKit.

Definition arrayMove {St} (array : loc) (from to : Z) : M St loc :=
  newArray <- spread array ;;
  arr <- read newArray ;;
  let start := if to <? 0 then Z.of_nat (length arr) + to else to in
  removed <- splice newArray from 1 [] ;;
  splice newArray start 0 [Js.first removed] ;;;
  ret newArray.

End DndKit.

(** ** VirtuosoTable.tsx *)

Module VirtuosoTable.

(** The first component of the file: the handler of SecondTable.tsx. *)
Record State : Type := mkState { sorting : SortingState }.

Definition handleDragEnd (p : Props) (event : DragEndEvent) : M State unit :=
  match over event with
  | Some over_id =>
      if bool_decide (active event ≠ over_id) then
        oldIndex <- findIndex (data p) (id_is (active event)) ;;
        newIndex <- findIndex (data p) (id_is over_id) ;;
        newData <- spread (data p) ;;
        splice newData oldIndex 1 [] ;;;
        moved <- index (data p) oldIndex ;;
        splice newData newIndex 0 [moved] ;;;
        call_onReorder_opt p newData
      else ret tt
  | None => ret tt
  end.

(** The second component of the file keeps the dragged identifier in
    [activeId] and moves with [arrayMove]. *)
Record State2 : Type := mkState2 {
  sorting2 : SortingState;
  activeId : option RowId
}.

Definition setActiveId (a : option RowId) : M State2 unit :=
  s <- get ;; put (mkState2 (sorting2 s) a).

Definition onDragStart (a : RowId) : M State2 unit := setActiveId (Some a).

Definition handleDragEnd2 (p : Props) (event : DragEndEvent) : M State2 unit :=
  match over event with
  | None => ret tt
  | Some over_id =>
      (if bool_decide (active event ≠ over_id) then
         oldIndex <- findIndex (data p) (id_is (active event)) ;;
         newIndex <- findIndex (data p) (id_is over_id) ;;
         (* [onReorder?.(arrayMove(...))]: without a callback the argument
            is not evaluated *)
         if onReorder p then
           moved <- DndKit.arrayMove (data p) oldIndex newIndex ;;
           call_onReorder moved
         else ret tt
       else ret tt) ;;;
      setActiveId None
  end.

Definition onDragCancel : M State2 unit := setActiveId None.

End VirtuosoTable.

(** ** DnDKitTable.tsx *)

Module DnDKitTable.

(** The first component: the handler of SecondTable.tsx followed by
    [setActiveId(undefined)]. *)
Record State : Type := mkState {
  sorting : SortingState;
  activeId : option RowId
}.

Definition setActiveId (a : option RowId) : M State unit :=
  s <- get ;; put (mkState (sorting s) a).

(** [onDragStart] sets [Number(params.active.id)], a number also for a
    string identifier; it is modelled for the numeric identifiers, which
    [Number] leaves as they are. *)
Definition onDragStart (n : Z) : M State unit := setActiveId (Some (NumId n)).

Definition handleDragEnd (p : Props) (event : DragEndEvent) : M State unit :=
  match over event with
  | Some over_id =>
      if bool_decide (active event ≠ over_id) then
        oldIndex <- findIndex (data p) (id_is (active event)) ;;
        newIndex <- findIndex (data p) (id_is over_id) ;;
        newData <- spread (data p) ;;
        splice newData oldIndex 1 [] ;;;
        moved <- index (data p) oldIndex ;;
        splice newData newIndex 0 [moved] ;;;
        call_onReorder_opt p newData
      else ret tt
  | None => ret tt
  end ;;;
  setActiveId None.

Definition onDragCancel : M State unit := setActiveId None.

(** The second component (DraggableVirtualTable): the handler needs the
    callback and returns early on an identifier it does not find. *)
Record State2 : Type := mkState2 { sorting2 : SortingState }.

Definition handleDragEnd2 (p : Props) (event : DragEndEvent) : M State2 unit :=
  match over event with
  | Some over_id =>
      if bool_decide (active event ≠ over_id) && onReorder p then
        activeIndex <- findIndex (data p) (id_is (active event)) ;;
        overIndex <- findIndex (data p) (id_is over_id) ;;
        if bool_decide (activeIndex = -1) || bool_decide (overIndex = -1)
        then ret tt
        else
          newData <- spread (data p) ;;
          splice newData activeIndex 1 [] ;;;
          moved <- index (data p) activeIndex ;;
          splice newData overIndex 0 [moved] ;;;
          call_onReorder newData
      else ret tt
  | None => ret tt
  end.

End DnDKitTable.

(** ** The table engine *)

(** Modelled from the spec: [useReactTable] with [getSortedRowModel] is an
    external library, taken here as an interface. The handlers only read
    [table.getRowModel().rows]: one row per element of [data], each with
    the element as its [original], in the order of the view. The sort
    state never alters [data], only the view of it, and with no column
    sort the view is [data] itself. *)

Class TableEngine : Type := {
  (** the sorted row model, as the list of the rows' [original]s *)
  sortRows : SortingState → list Val → list Val;
  (** [columnDef.enableSorting] *)
  enableSorting : string → bool;
  (** the updater behind [column.getToggleSortingHandler()] *)
  toggleSorting : string → SortingState → SortingState
}.

Definition rowModel `{TableEngine} (s : SortingState) (arr : list Val)
    : list Val :=
  match s with
  | [] => arr
  | _ :: _ => sortRows s arr
  end.

(** [rows[rowIndex].original]: a TypeError when there is no such row. *)
Definition row_original (rows : list Val) (rowIndex : Z) : option Val :=
  if rowIndex <? 0 then None else rows !! Z.to_nat rowIndex.

(** [(row) => String(row.original.id) === draggedId], on the originals,
    and [(item) => String(item.id) === draggedId]. *)
Definition String_id_is (draggedId : string) (item : Val) : option bool :=
  i ← get_id item; Some (bool_decide (String_ i = draggedId)).

(** A React drag event of the HTML drag-and-drop API:
    [event.dataTransfer.getData("text/plain")]. *)
Record DragEvent : Type := mkDragEvent { text_plain : string }.

(** ** WindowTable.tsx *)

Module WindowTable.

Record State : Type := mkState { sorting : SortingState }.

Section Component.
Context `{TableEngine}.

(** [table.getRowModel().rows] *)
Definition getRowModel (p : Props) : M State (list Val) :=
  arr <- read (data p) ;;
  s <- get ;;
  ret (rowModel (sorting s) arr).

Definition handleDragEnd (p : Props) (event : DragEvent) (rowIndex : Z)
    : M State unit :=
  let draggedId := text_plain event in
  rows <- getRowModel p ;;
  draggedSortedIndex <- try (Js.findIndex (String_id_is draggedId) rows) ;;
  if bool_decide (draggedSortedIndex ≠ -1)
     && bool_decide (draggedSortedIndex ≠ rowIndex) then
    newData <- spread (data p) ;;
    sourceOriginalIndex <- findIndex (data p) (String_id_is draggedId) ;;
    target <- try (row_original rows rowIndex) ;;
    targetOriginalIndex <- indexOf (data p) target ;;
    removed <- splice newData sourceOriginalIndex 1 [] ;;
    let movedItem := Js.first removed in
    splice newData targetOriginalIndex 0 [movedItem] ;;;
    s <- get ;;
    (if bool_decide (length (sorting s) ≠ 0%nat)
     then put (mkState [])
     else ret tt) ;;;
    call_onReorder_opt p newData
  else ret tt.
End Component.

End WindowTable.

(** ** VirtualizedDraggableTable (unnamed/part_000) *)

Module VirtualizedTable.

Record State : Type := mkState {
  sorting : SortingState;
  isDragging : bool;
  draggedRowIndex : option Z;
  overRowIndex : option Z
}.

Section Component.
Context `{TableEngine}.

Definition getRowModel (p : Props) : M State (list Val) :=
  arr <- read (data p) ;;
  s <- get ;;
  ret (rowModel (sorting s) arr).

Definition setSorting (so : SortingState) : M State unit :=
  s <- get ;;
  put (mkState so (isDragging s) (draggedRowIndex s) (overRowIndex s)).

Definition resetDragState : M State unit :=
  s <- get ;;
  put (mkState (sorting s) false None None).

Definition handleDragEnd (p : Props) (event : DragEvent) (rowIndex : Z)
    : M State unit :=
  let draggedId := text_plain event in
  rows <- getRowModel p ;;
  draggedSortedIndex <- try (Js.findIndex (String_id_is draggedId) rows) ;;
  (if bool_decide (draggedSortedIndex ≠ -1)
      && bool_decide (draggedSortedIndex ≠ rowIndex) then
     newData <- spread (data p) ;;
     sourceOriginalIndex <- findIndex (data p) (String_id_is draggedId) ;;
     target <- try (row_original rows rowIndex) ;;
     targetOriginalIndex <- indexOf (data p) target ;;
     removed <- splice newData sourceOriginalIndex 1 [] ;;
     let movedItem := Js.first removed in
     splice newData targetOriginalIndex 0 [movedItem] ;;;
     s <- get ;;
     (if bool_decide (length (sorting s) ≠ 0%nat)
      then setSorting []
      else ret tt) ;;;
     call_onReorder_opt p newData
   else ret tt) ;;;
  resetDragState.

(** [onDragStart(rowIndex)]: the identifier written to the drag data
    store is returned, next to the state updates. *)
Definition onDragStart (p : Props) (rowIndex : Z) : M State string :=
  rows <- getRowModel p ;;
  original <- try (row_original rows rowIndex) ;;
  i <- try (get_id original) ;;
  s <- get ;;
  put (mkState (sorting s) true (Some rowIndex) (overRowIndex s)) ;;;
  ret (String_ i).

Definition onDragOver (rowIndex : Z) : M State unit :=
  s <- get ;;
  put (mkState (sorting s) (isDragging s) (draggedRowIndex s) (Some rowIndex)).

(** [draggable={showSortableColumn && sorting.length === 0}] *)
Definition draggable (p : Props) (s : State) : bool :=
  showSortableColumn p && bool_decide (length (sorting s) = 0%nat).

(** The header's [onClick]: the toggle handler when the column is
    sortable and no drag is in progress, [undefined] otherwise. *)
Definition headerClick (col : string) : M State unit :=
  s <- get ;;
  if enableSorting col && negb (isDragging s)
  then setSorting (toggleSorting col (sorting s))
  else ret tt.

(** The events the table has a handler for, with what the handler is
    given: [onClick] of a header, and on every row, whatever the sort
    state, [onDragStart], [onDragOver], [onDrop] and [onDragEnd]. The drag
    event of a drop brings the drag data of the gesture, which need not
    have started in the table. *)
Inductive Event : Type :=
  | HeaderClick (col : string)
  | DragStart (rowIndex : Z)
  | DragOver (rowIndex : Z)
  | Drop (event : DragEvent) (rowIndex : Z)
  | DragEnd.

(** The table, and the text the last [onDragStart] put in the drag
    data. *)
Record Machine : Type := mkMachine {
  world : World State;
  store : string
}.

Definition step (p : Props) (m : Machine) (e : Event) : option Machine :=
  match e with
  | HeaderClick col =>
      match headerClick col (world m) with
      | Returned _ w => Some (mkMachine w (store m))
      | Threw => None
      end
  | DragStart rowIndex =>
      match onDragStart p rowIndex (world m) with
      | Returned txt w => Some (mkMachine w txt)
      | Threw => None
      end
  | DragOver rowIndex =>
      match onDragOver rowIndex (world m) with
      | Returned _ w => Some (mkMachine w (store m))
      | Threw => None
      end
  | Drop event rowIndex =>
      match handleDragEnd p event rowIndex (world m) with
      | Returned _ w => Some (mkMachine w (store m))
      | Threw => None
      end
  | DragEnd =>
      match resetDragState (world m) with
      | Returned _ w => Some (mkMachine w (store m))
      | Threw => None
      end
  end.


(** The machines a run of events can reach from [m0], each event
    satisfying [ok]. The parent may render the table with other props
    between two events, as App does with the array it got from
    [onReorder]. *)
Inductive reachable (ok : Props → Machine → Event → Prop) (m0 : Machine)
    : Machine → Prop :=
  | reach_init : reachable ok m0 m0
  | reach_step p m e m' :
      reachable ok m0 m → ok p m e → step p m e = Some m' →
      reachable ok m0 m'.

(** [useState([])], [useState(false)], [useState(null)]. *)
Definition initial : State := mkState [] false None None.
End Component.

End VirtualizedTable.

(** ** ThirdVirtualizedDraggableTable (unnamed/part_001) *)

Module ThirdTable.

Record State : Type := mkState { sorting : SortingState }.

(** [rowIndex] is [virtualRow.index], the position of the row the drop
    landed on in [table.getRowModel().rows]. *)
Definition handleDragEnd (p : Props) (event : DragEvent) (rowIndex : Z)
    : M State unit :=
  let draggedId := text_plain event in
  draggedIndex <- findIndex (data p) (String_id_is draggedId) ;;
  if bool_decide (draggedIndex ≠ -1) && bool_decide (draggedIndex ≠ rowIndex)
  then
    newData <- spread (data p) ;;
    removed <- splice newData draggedIndex 1 [] ;;
    let movedItem := Js.first removed in
    splice newData rowIndex 0 [movedItem] ;;;
    call_onReorder_opt p newData
  else ret tt.

End ThirdTable.

(** ** App (unnamed/part_002) *)

Module App.

Section Component.
Context `{TableEngine}.

(** [generateData] draws [age], [visits], [status] and [progress] of a row
    with [Math.random]; these draws have no embedding. [drawn index]
    stands for the four fields of the row made for [index], and
    [alloc index] for the address of that object. *)
Variable drawn : nat → list (string * string).
Variable alloc : nat → positive.

(** The object the callback of [map] makes for [index]. *)
Definition person (index : nat) : Row :=
  mkRow (alloc index) (NumId (Z.of_nat index + 1))
    ([("firstName", "First" +:+ pretty (Z.of_nat index + 1));
      ("lastName", "Last" +:+ pretty (Z.of_nat index + 1))]
     ++ drawn index).

(** [Array.from({ length: count }).map((_, index) => ...)] *)
Definition generateData (count : nat) : list Row := person <$> seq 0 count.

(** The state of [App]: the table it renders (a
    ThirdVirtualizedDraggableTable, with its store and the calls of
    [onReorder]) and [toggle]. [onReorder] is [setData], so [data] is the
    array of the last call, and the generated array before any call. *)
Record State : Type := mkApp {
  table : World ThirdTable.State;
  toggle : bool
}.

Definition generated : loc := 1%positive.

Definition current_data (s : State) : loc :=
  default generated (last (reorders (table s))).

(** [data={data} onReorder={setData} showSortableColumn={toggle}] *)
Definition props (s : State) : Props := mkProps (current_data s) true (toggle s).

(** The header's [onClick] in the table: the toggle handler of a sortable
    column, [undefined] otherwise. *)
Definition headerClick (col : string) : M ThirdTable.State unit :=
  s <- get ;;
  if enableSorting col
  then put (ThirdTable.mkState (toggleSorting col (ThirdTable.sorting s)))
  else ret tt.

(** What the user can do: click the Toggle button, click a header, drop
    something on the row shown at [rowIndex]. *)
Inductive Event : Type :=
  | ButtonClick
  | HeaderClick (col : string)
  | Drop (event : DragEvent) (rowIndex : Z).

Definition step (s : State) (e : Event) : option State :=
  match e with
  | ButtonClick => Some (mkApp (table s) (negb (toggle s)))
  | HeaderClick col =>
      match headerClick col (table s) with
      | Returned _ w => Some (mkApp w (toggle s))
      | Threw => None
      end
  | Drop event rowIndex =>
      match ThirdTable.handleDragEnd (props s) event rowIndex (table s) with
      | Returned _ w => Some (mkApp w (toggle s))
      | Threw => None
      end
  end.

(** [useState(generateData(count))], [useState(true)]; [App] has 200 for
    [count]. *)
Definition start (count : nat) : State :=
  mkApp (mkWorld {[ generated := obj <$> generateData count ]} []
           (ThirdTable.mkState [])) true.

Definition initial : State := start 200.

Inductive reachable (s0 : State) : State → Prop :=
  | reach_init : reachable s0 s0
  | reach_step s e s' : reachable s0 s → step s e = Some s' → reachable s0 s'.
End Component.

End App.

(** * The vocabulary of the statements *)

(** Taking an element out of a list and putting it back anywhere. *)
Definition reinsert {A : Type} (i j : nat) (x : A) (l : list A) : list A :=
  take j (delete i l) ++ x :: drop j (delete i l).

(** What the pair of splices of the handlers leaves in [newData], for
    whatever the two indices are. *)
Definition move_splice (arr : list Val) (oldIndex newIndex : Z) : list Val :=
  (Js.splice (Js.splice arr oldIndex 1 []).1 newIndex 0
     [Js.index arr oldIndex]).1.

(** The same with the moved element read from the removed ones. *)
Definition move_first (arr : list Val) (oldIndex newIndex : Z) : list Val :=
  (Js.splice (Js.splice arr oldIndex 1 []).1 newIndex 0
     [Js.first (Js.splice arr oldIndex 1 []).2]).1.

(** The position [findIndex] reports for an identifier in an array of
    rows: that of the first row with it, and -1 without one. *)
Definition position (a : RowId) (rows : list Row) : Z :=
  match list_find (λ r, id r = a) rows with
  | Some (i, _) => Z.of_nat i
  | None => -1
  end.

(** The world after a handler has copied [data] into a new array, left
    [arr'] in the copy, called [onReorder?.] with it and set the state to
    [st']. *)
Definition committed {St} (p : Props) (w : World St) (arr' : list Val)
    (st' : St) : World St :=
  let l := fresh (dom (heap w)) in
  mkWorld (<[l := arr']> (heap w))
          (if onReorder p then reorders w ++ [l] else reorders w) st'.

(** The handler [m] returns from [w] and has called [onReorder] once, with
    an array that holds [arr']. *)
Definition reports {St} (m : M St unit) (w : World St) (arr' : list Val)
    : Prop :=
  ∃ w' l, m w = Returned tt w' ∧ reorders w' = reorders w ++ [l]
          ∧ heap w' !! l = Some arr'.

(** The handler [m] returns from [w] without a trace: no array written or
    allocated, no callback, the same state. *)
Definition silent {St} (m : M St unit) (w : World St) : Prop :=
  m w = Returned tt w.

(** The body the four splice handlers share. *)
Definition dnd_move {St} (p : Props) (a b : RowId) : M St unit :=
  oldIndex <- findIndex (data p) (id_is a) ;;
  newIndex <- findIndex (data p) (id_is b) ;;
  newData <- spread (data p) ;;
  splice newData oldIndex 1 [] ;;;
  moved <- index (data p) oldIndex ;;
  splice newData newIndex 0 [moved] ;;;
  call_onReorder_opt p newData.

(** [w'] differs from [w] by one [onReorder] call, whose array did not
    exist in [w]; every array of [w], the one of [data] among them, holds
    what it held. *)
Definition reported_fresh_copy {St} (p : Props) (w w' : World St) : Prop :=
  ∃ l, reorders w' = reorders w ++ [l]
       ∧ heap w !! l = None
       ∧ l ≠ data p
       ∧ heap w' !! data p = heap w !! data p
       ∧ ∀ l', l' ≠ l → heap w' !! l' = heap w !! l'.


(** The position [findIndex] reports in an array of rows for a test on
    the row: that of the first row that passes, and -1 without one. *)
Definition first_index (Q : Row → Prop) `{∀ r, Decision (Q r)}
    (rows : list Row) : Z :=
  match list_find Q rows with
  | Some (i, _) => Z.of_nat i
  | None => -1
  end.

(** The text the drag of a row puts in the drag data store. *)
Definition label (r : Row) : string := String_ (id r).

(** Rows whose identifiers are strings or safe integers: for these,
    [label] is the text that JavaScript makes of the identifier. *)
Definition safe_rows (rows : list Row) : Prop :=
  Forall (λ r, safe_id (id r)) rows.

Global Instance safe_rows_dec (rows : list Row) : Decision (safe_rows rows).
Proof. unfold safe_rows. apply _. Defined.

(** Where a row that was taken out of an array of [len] slots lands when
    it is spliced in at [k]. *)
Definition landing (len : nat) (k : Z) : nat :=
  Z.to_nat (Js.relative_start (Z.of_nat len - 1) k).

(** [data] of [App] holds the generated rows, in some order. *)
Definition App_holds (drawn : nat → list (string * string))
    (alloc : nat → positive) (count : nat) (s : App.State) : Prop :=
  ∃ rows', heap (App.table s) !! App.current_data s = Some (obj <$> rows')
           ∧ rows' ≡ₚ App.generateData drawn alloc count.

(** ** Scenarios *)

(** The rows [{id: 1}], [{id: 2}], [{id: 3}], three objects. *)
Definition r1 : Row := mkRow 101 (NumId 1) [].
Definition r2 : Row := mkRow 102 (NumId 2) [].
Definition r3 : Row := mkRow 103 (NumId 3) [].

Definition rows123 : list Row := [r1; r2; r3].

(** A table with a callback and a drag handle, its [data] at address 1. *)
Definition props0 : Props := mkProps 1 true true.

Definition heap0 : gmap loc (list Val) := {[ 1%positive := obj <$> rows123 ]}.

(** A descending sort on a column. *)
Definition descending : SortingState := [mkSort "firstName" true].

(** A table engine for the scenarios. It orders the rows by their numeric
    identifier, whatever the column, and toggles a column from unsorted to
    ascending to descending and back. *)
Definition num_key (v : Val) : Z :=
  match v with
  | obj r => match id r with NumId n => n | StrId _ => 0 end
  | undefined => 0
  end.

Definition key_le (x y : Val) : Prop := num_key x ≤ num_key y.

Global Instance key_le_dec : RelDecision key_le.
Proof. intros x y. unfold key_le. apply _. Defined.

Definition by_id : TableEngine := {|
  sortRows so arr :=
    match so with
    | c :: _ =>
        if desc c then merge_sort (flip key_le) arr
        else merge_sort key_le arr
    | [] => arr
    end;
  enableSorting _ := true;
  toggleSorting col so :=
    match so with
    | [] => [mkSort col false]
    | c :: _ => if desc c then [] else [mkSort col true]
    end
|}.

(** A WindowTable and a VirtualizedDraggableTable in the descending
    view. *)
Definition window_sorted : World WindowTable.State :=
  mkWorld heap0 [] (WindowTable.mkState descending).

Definition virtualized_sorted : World VirtualizedTable.State :=
  mkWorld heap0 [] (VirtualizedTable.mkState descending false None None).

(** The world a handler leaves, for the scenarios. *)
Definition world_after {St} (m : M St unit) (w : World St) : World St :=
  match m w with
  | Returned _ w' => w'
  | Threw => w
  end.

Definition third_sorted : World ThirdTable.State :=
  mkWorld heap0 [] (ThirdTable.mkState descending).

Definition second_unsorted : World SecondTable.State :=
  mkWorld heap0 [] (SecondTable.mkState []).

Definition second_sorted : World SecondTable.State :=
  mkWorld heap0 [] (SecondTable.mkState descending).

(** The table of the scenarios before any event, and after a drag has
    started on its first row. *)
Definition machine0 : VirtualizedTable.Machine :=
  VirtualizedTable.mkMachine
    (mkWorld heap0 [] VirtualizedTable.initial) "".




Definition dndkit_unsorted : World DnDKitTable.State2 :=
  mkWorld heap0 [] (DnDKitTable.mkState2 []).

Definition virtuoso_unsorted : World VirtuosoTable.State2 :=
  mkWorld heap0 [] (VirtuosoTable.mkState2 [] (Some (NumId 1))).

(** More tables for the scenarios: unsorted ones, and one that keeps a
    dragged identifier. *)
Definition third_unsorted : World ThirdTable.State :=
  mkWorld heap0 [] (ThirdTable.mkState []).

Definition window_unsorted : World WindowTable.State :=
  mkWorld heap0 [] (WindowTable.mkState []).

Definition dndkit_dragging : World DnDKitTable.State :=
  mkWorld heap0 [] (DnDKitTable.mkState descending (Some (NumId 1))).

(** An [App] with three rows, no drawn fields and the objects at the
    addresses 101, 102, 103; and the same after a drop of row 2 on the
    first row shown. *)
Definition no_fields (index : nat) : list (string * string) := [].

Definition addr (index : nat) : positive := Pos.of_nat (index + 101).

Definition app3_after : App.State :=
  default (App.start no_fields addr 3)
    (@App.step by_id (App.start no_fields addr 3)
       (App.Drop (mkDragEvent "2") 0)).

(** * Properties *)

(** ** The array primitives on contents *)

Section splice_facts.
Context {A : Type}.
Implicit Types (arr : list A) (i j : nat).

Lemma splice_remove_at arr i :
  (i < length arr)%nat →
  Js.splice arr (Z.of_nat i) 1 [] = (delete i arr, take 1 (drop i arr)).
Proof.
  intros Hi. unfold Js.splice, Js.relative_start.
  destruct (Z.ltb_spec (Z.of_nat i) 0) as [?|_]; [lia|].
  rewrite Z.min_l by lia.
  replace (Z.min (Z.max 1 0) (Z.of_nat (length arr) - Z.of_nat i)) with 1
    by lia.
  rewrite Nat2Z.id, delete_take_drop. simpl.
  do 3 f_equal. lia.
Qed.

Lemma splice_insert_at arr j x :
  (j ≤ length arr)%nat →
  Js.splice arr (Z.of_nat j) 0 [x] = (take j arr ++ x :: drop j arr, []).
Proof.
  intros Hj. unfold Js.splice, Js.relative_start.
  destruct (Z.ltb_spec (Z.of_nat j) 0) as [?|_]; [lia|].
  rewrite Z.min_l by lia.
  replace (Z.min (Z.max 0 0) (Z.of_nat (length arr) - Z.of_nat j)) with 0
    by lia.
  rewrite Z.add_0_r, Nat2Z.id. reflexivity.
Qed.
End splice_facts.

Section reinsert_facts.
Context {A : Type}.
Implicit Types (l : list A) (i j : nat) (x : A).

Lemma reinsert_Permutation l i j x :
  l !! i = Some x → reinsert i j x l ≡ₚ l.
Proof.
  intros Hx. unfold reinsert.
  rewrite <- Permutation_middle, take_drop.
  symmetry. by apply delete_Permutation.
Qed.

Lemma reinsert_length l i j x :
  l !! i = Some x → length (reinsert i j x l) = length l.
Proof. intros Hx. by rewrite (reinsert_Permutation l i j x Hx). Qed.

Lemma reinsert_lookup l i j x :
  l !! i = Some x → (j < length l)%nat → reinsert i j x l !! j = Some x.
Proof.
  intros Hx Hj. unfold reinsert.
  assert (length (delete i l) = (length l - 1)%nat) as Hlen.
  { apply length_delete. eauto. }
  rewrite lookup_app_r; rewrite length_take; [|lia].
  replace (j - j `min` length (delete i l))%nat with 0%nat by lia.
  reflexivity.
Qed.

(** The other elements keep their order: dropping the moved element from
    the old and from the new list leaves the same list. *)
Lemma reinsert_filter (P : A → Prop) `{∀ y, Decision (P y)} l i j x :
  l !! i = Some x → ¬ P x → filter P (reinsert i j x l) = filter P l.
Proof.
  intros Hx HP. unfold reinsert.
  rewrite filter_app, filter_cons_False by done.
  rewrite <- filter_app, take_drop.
  rewrite <- (take_drop_middle l i x Hx) at 2.
  rewrite delete_take_drop, !filter_app, filter_cons_False by done.
  reflexivity.
Qed.
End reinsert_facts.

Lemma index_lookup (arr : list Val) (i : nat) (x : Val) :
  arr !! i = Some x → Js.index arr (Z.of_nat i) = x.
Proof.
  intros Hx. unfold Js.index.
  destruct (Z.ltb_spec (Z.of_nat i) 0); [lia|].
  by rewrite Nat2Z.id, Hx.
Qed.

Lemma move_splice_valid (arr : list Val) (i j : nat) (x : Val) :
  arr !! i = Some x → (j < length arr)%nat →
  move_splice arr (Z.of_nat i) (Z.of_nat j) = reinsert i j x arr.
Proof.
  intros Hx Hj. unfold move_splice.
  pose proof (lookup_lt_Some _ _ _ Hx) as Hi.
  rewrite splice_remove_at by done. cbn [fst snd].
  rewrite splice_insert_at.
  - by rewrite (index_lookup arr i x).
  - rewrite length_delete by eauto. lia.
Qed.

Lemma move_first_valid (arr : list Val) (i j : nat) (x : Val) :
  arr !! i = Some x → (j < length arr)%nat →
  move_first arr (Z.of_nat i) (Z.of_nat j) = reinsert i j x arr.
Proof.
  intros Hx Hj. unfold move_first.
  pose proof (lookup_lt_Some _ _ _ Hx) as Hi.
  rewrite splice_remove_at by done. cbn [fst snd].
  rewrite splice_insert_at.
  - rewrite (drop_S arr x i Hx). reflexivity.
  - rewrite length_delete by eauto. lia.
Qed.

(** ** Looking an identifier up *)

Lemma findIndex_from_rows (a : RowId) (rows : list Row) (k : Z) :
  Js.findIndex_from (id_is a) (obj <$> rows) k
  = Some (match list_find (λ r, id r = a) rows with
          | Some (i, _) => k + Z.of_nat i
          | None => -1
          end).
Proof.
  revert k. induction rows as [|r rows IH]; intros k; [done|].
  cbn [fmap list_fmap Js.findIndex_from id_is get_id mbind option_bind].
  cbn [list_find]. destruct (decide (id r = a)) as [Heq|Hne].
  - rewrite bool_decide_eq_true_2 by done. f_equal. lia.
  - rewrite bool_decide_eq_false_2 by done. rewrite IH.
    destruct (list_find _ rows) as [[i r']|]; simpl; f_equal. lia.
Qed.

Lemma findIndex_rows (a : RowId) (rows : list Row) :
  Js.findIndex (id_is a) (obj <$> rows) = Some (position a rows).
Proof.
  unfold Js.findIndex, position. rewrite findIndex_from_rows.
  by destruct (list_find _ rows) as [[i r']|].
Qed.

Lemma position_present (a : RowId) (rows : list Row) :
  a ∈ id <$> rows →
  ∃ i r, position a rows = Z.of_nat i ∧ rows !! i = Some r ∧ id r = a.
Proof.
  intros Hin. apply list_elem_of_fmap in Hin as (r & -> & Hr).
  destruct (list_find_elem_of (λ r', id r' = id r) rows r Hr eq_refl)
    as [[i r'] Hfind].
  unfold position. rewrite Hfind.
  apply list_find_Some in Hfind as (Hi & Hid & _). eauto.
Qed.

Lemma position_absent (a : RowId) (rows : list Row) :
  a ∉ id <$> rows → position a rows = -1.
Proof.
  intros Hnin. unfold position.
  destruct (list_find _ rows) as [[i r]|] eqn:Hfind; [|done].
  apply list_find_Some in Hfind as (Hi & Hid & _).
  exfalso. apply Hnin. apply list_elem_of_fmap. exists r. split; [done|].
  by eapply list_elem_of_lookup_2.
Qed.

(** ** Running the primitives *)

Section run.
Context {St : Type}.
Implicit Types (w : World St) (l : loc) (arr : list Val).

Lemma bind_run {A B} (m : M St A) (k : A → M St B) w a w' :
  m w = Returned a w' → bind m k w = k a w'.
Proof. unfold bind. by intros ->. Qed.

Lemma bind_inv {A B} (m : M St A) (k : A → M St B) w b w'' :
  bind m k w = Returned b w'' →
  ∃ a w', m w = Returned a w' ∧ k a w' = Returned b w''.
Proof. unfold bind. destruct (m w) as [|a w']; [done|]. eauto. Qed.

Lemma read_run w l arr :
  heap w !! l = Some arr → read l w = Returned arr w.
Proof. unfold read. by intros ->. Qed.

Lemma findIndex_run w l arr cb i :
  heap w !! l = Some arr → Js.findIndex cb arr = Some i →
  findIndex l cb w = Returned i w.
Proof.
  intros Hl Hi. unfold findIndex.
  rewrite (bind_run _ _ _ _ _ (read_run _ _ _ Hl)). by rewrite Hi.
Qed.

Lemma index_run w l arr i :
  heap w !! l = Some arr → index l i w = Returned (Js.index arr i) w.
Proof.
  intros Hl. unfold index.
  by rewrite (bind_run _ _ _ _ _ (read_run _ _ _ Hl)).
Qed.

Lemma indexOf_run w l arr x :
  heap w !! l = Some arr → indexOf l x w = Returned (Js.indexOf x arr) w.
Proof.
  intros Hl. unfold indexOf.
  by rewrite (bind_run _ _ _ _ _ (read_run _ _ _ Hl)).
Qed.

Lemma spread_run w l arr :
  heap w !! l = Some arr →
  spread l w
  = Returned (fresh (dom (heap w)))
      (mkWorld (<[fresh (dom (heap w)) := arr]> (heap w))
               (reorders w) (state w)).
Proof.
  intros Hl. unfold spread.
  by rewrite (bind_run _ _ _ _ _ (read_run _ _ _ Hl)).
Qed.

Lemma splice_run w l arr start dc items :
  heap w !! l = Some arr →
  splice l start dc items w
  = Returned (Js.splice arr start dc items).2
      (mkWorld (<[l := (Js.splice arr start dc items).1]> (heap w))
               (reorders w) (state w)).
Proof.
  intros Hl. unfold splice.
  rewrite (bind_run _ _ _ _ _ (read_run _ _ _ Hl)).
  by destruct (Js.splice arr start dc items).
Qed.
End run.

Ltac heap_lookup :=
  cbn [heap reorders state];
  rewrite ?lookup_insert_eq, ?lookup_insert_ne by done;
  first [eassumption | reflexivity].

Ltac run_step :=
  erewrite bind_run;
  [| first [ eapply findIndex_run; [heap_lookup | eassumption]
           | eapply spread_run; heap_lookup
           | eapply splice_run; heap_lookup
           | eapply index_run; heap_lookup
           | eapply indexOf_run; heap_lookup ] ];
  cbn [heap reorders state].

Section throw.
Context {St : Type}.
Implicit Types (w : World St) (l : loc) (arr : list Val).

Lemma bind_throw {A B} (m : M St A) (k : A → M St B) w :
  m w = Threw → bind m k w = Threw.
Proof. unfold bind. by intros ->. Qed.

Lemma findIndex_throw w l arr cb :
  heap w !! l = Some arr → Js.findIndex cb arr = None →
  findIndex l cb w = Threw.
Proof.
  intros Hl Hi. unfold findIndex.
  rewrite (bind_run _ _ _ _ _ (read_run _ _ _ Hl)). by rewrite Hi.
Qed.

Lemma fresh_ne w l arr :
  heap w !! l = Some arr → fresh (dom (heap w)) ≠ l.
Proof.
  intros Hl Heq. apply (is_fresh (dom (heap w))). rewrite Heq.
  apply elem_of_dom. eauto.
Qed.

Lemma fresh_None w : heap w !! fresh (dom (heap w)) = None.
Proof. apply not_elem_of_dom, is_fresh. Qed.
End throw.

(** ** What a reorder leaves behind *)

Lemma committed_reports {St} (m : M St unit) p (w : World St) arr' st' :
  onReorder p = true →
  m w = Returned tt (committed p w arr' st') → reports m w arr'.
Proof.
  intros Hcb Hm. exists (committed p w arr' st'), (fresh (dom (heap w))).
  split; [done|]. unfold committed. cbn [heap reorders]. rewrite Hcb.
  split; [done|]. apply lookup_insert_eq.
Qed.

(** A committed world holds every old array as it was, the array of [data]
    among them, and the array it reports is one that did not exist. *)
Lemma committed_frame {St} p (w : World St) arr' st' :
  heap w !! fresh (dom (heap w)) = None
  ∧ ∀ l, l ≠ fresh (dom (heap w)) →
         heap (committed p w arr' st') !! l = heap w !! l.
Proof.
  split; [apply fresh_None|]. intros l Hl. unfold committed. cbn [heap].
  by rewrite lookup_insert_ne.
Qed.

(** ** The handlers written with the drag-and-drop library *)

Lemma dnd_move_run {St} p a b (w : World St) arr i j :
  heap w !! data p = Some arr →
  Js.findIndex (id_is a) arr = Some i → Js.findIndex (id_is b) arr = Some j →
  dnd_move p a b w
  = Returned tt (committed p w (move_splice arr i j) (state w)).
Proof.
  intros Hd Hi Hj.
  pose proof (fresh_ne w _ _ Hd) as Hne.
  unfold dnd_move. do 6 run_step.
  unfold call_onReorder_opt, call_onReorder, committed, move_splice, ret.
  rewrite !insert_insert_eq.
  by destruct (onReorder p).
Qed.

Lemma dnd_move_inv {St} p a b (w w' : World St) arr :
  heap w !! data p = Some arr →
  dnd_move p a b w = Returned tt w' →
  ∃ i j, w' = committed p w (move_splice arr i j) (state w).
Proof.
  intros Hd Hrun.
  destruct (Js.findIndex (id_is a) arr) as [i|] eqn:Hi.
  - destruct (Js.findIndex (id_is b) arr) as [j|] eqn:Hj.
    + rewrite (dnd_move_run p a b w arr i j Hd Hi Hj) in Hrun.
      exists i, j. congruence.
    + unfold dnd_move in Hrun.
      erewrite bind_run in Hrun by (eapply findIndex_run; eassumption).
      erewrite bind_throw in Hrun by (eapply findIndex_throw; eassumption).
      done.
  - unfold dnd_move in Hrun.
    erewrite bind_throw in Hrun by (eapply findIndex_throw; eassumption).
    done.
Qed.

Lemma SecondTable_unfold p a b :
  SecondTable.handleDragEnd p (mkDragEnd a (Some b))
  = if bool_decide (a ≠ b) then dnd_move p a b else ret tt.
Proof. reflexivity. Qed.

Lemma VirtuosoTable_unfold p a b :
  VirtuosoTable.handleDragEnd p (mkDragEnd a (Some b))
  = if bool_decide (a ≠ b) then dnd_move p a b else ret tt.
Proof. reflexivity. Qed.

(** With both identifiers present the move is the re-insertion of the
    dragged row at the position of the target row. *)
Lemma dnd_move_present {St} p (rows : list Row) a b (w : World St) :
  heap w !! data p = Some (obj <$> rows) →
  a ∈ id <$> rows → b ∈ id <$> rows →
  ∃ i j ra rb,
    rows !! i = Some ra ∧ id ra = a ∧ rows !! j = Some rb ∧ id rb = b
    ∧ position a rows = Z.of_nat i ∧ position b rows = Z.of_nat j
    ∧ dnd_move p a b w
      = Returned tt (committed p w (obj <$> reinsert i j ra rows) (state w)).
Proof.
  intros Hd Ha Hb.
  destruct (position_present a rows Ha) as (i & ra & Hpi & Hi & Hida).
  destruct (position_present b rows Hb) as (j & rb & Hpj & Hj & Hidb).
  exists i, j, ra, rb. repeat (split; [done|]).
  rewrite (dnd_move_run p a b w _ _ _ Hd (findIndex_rows a rows)
             (findIndex_rows b rows)).
  rewrite Hpi, Hpj.
  rewrite (move_splice_valid _ i j (obj ra)).
  - unfold reinsert.
    by rewrite fmap_app, fmap_cons, fmap_take, fmap_drop, !list_fmap_delete.
  - by rewrite list_lookup_fmap, Hi.
  - rewrite length_fmap. by eapply lookup_lt_Some.
Qed.

Lemma arrayMove_run {St} (w : World St) array arr from to :
  heap w !! array = Some arr →
  DndKit.arrayMove array from to w
  = Returned (fresh (dom (heap w)))
      (mkWorld
         (<[fresh (dom (heap w)) :=
              move_first arr from
                (if to <? 0 then Z.of_nat (length arr) + to else to)]>
            (heap w))
         (reorders w) (state w)).
Proof.
  intros Hd. unfold DndKit.arrayMove. run_step.
  erewrite bind_run by (eapply read_run; heap_lookup).
  do 2 run_step. unfold ret, move_first. by rewrite !insert_insert_eq.
Qed.

Lemma VirtuosoTable2_present p (rows : list Row) a b
    (w : World VirtuosoTable.State2) :
  heap w !! data p = Some (obj <$> rows) →
  a ∈ id <$> rows → b ∈ id <$> rows → a ≠ b → onReorder p = true →
  ∃ i j ra rb,
    rows !! i = Some ra ∧ id ra = a ∧ rows !! j = Some rb ∧ id rb = b
    ∧ position a rows = Z.of_nat i ∧ position b rows = Z.of_nat j
    ∧ VirtuosoTable.handleDragEnd2 p (mkDragEnd a (Some b)) w
      = Returned tt
          (committed p w (obj <$> reinsert i j ra rows)
             (VirtuosoTable.mkState2 (VirtuosoTable.sorting2 (state w)) None)).
Proof.
  intros Hd Ha Hb Hab Hcb.
  destruct (position_present a rows Ha) as (i & ra & Hpi & Hi & Hida).
  destruct (position_present b rows Hb) as (j & rb & Hpj & Hj & Hidb).
  exists i, j, ra, rb. repeat (split; [done|]).
  pose proof (findIndex_rows a rows) as Hfa.
  pose proof (findIndex_rows b rows) as Hfb.
  rewrite Hpi in Hfa. rewrite Hpj in Hfb.
  unfold VirtuosoTable.handleDragEnd2. cbn [over active].
  rewrite bool_decide_eq_true_2 by done.
  assert (obj <$> reinsert i j ra rows
          = move_first (obj <$> rows) (Z.of_nat i) (Z.of_nat j)) as ->.
  { rewrite (move_first_valid _ i j (obj ra)).
    - unfold reinsert.
      by rewrite fmap_app, fmap_cons, fmap_take, fmap_drop,
        !list_fmap_delete.
    - by rewrite list_lookup_fmap, Hi.
    - rewrite length_fmap. by eapply lookup_lt_Some. }
  erewrite bind_run; cycle 1.
  { do 2 run_step. rewrite Hcb.
    erewrite bind_run by (by eapply arrayMove_run).
    destruct (Z.ltb_spec (Z.of_nat j) 0) as [?|_]; [lia|].
    unfold call_onReorder.
    instantiate (1 := committed p w _ (state w)). unfold committed.
    by rewrite Hcb. }
  reflexivity.
Qed.

Lemma DnDKitTable2_present p (rows : list Row) a b
    (w : World DnDKitTable.State2) :
  heap w !! data p = Some (obj <$> rows) →
  a ∈ id <$> rows → b ∈ id <$> rows → a ≠ b → onReorder p = true →
  ∃ i j ra rb,
    rows !! i = Some ra ∧ id ra = a ∧ rows !! j = Some rb ∧ id rb = b
    ∧ position a rows = Z.of_nat i ∧ position b rows = Z.of_nat j
    ∧ DnDKitTable.handleDragEnd2 p (mkDragEnd a (Some b)) w
      = Returned tt (committed p w (obj <$> reinsert i j ra rows) (state w)).
Proof.
  intros Hd Ha Hb Hab Hcb.
  destruct (dnd_move_present p rows a b w Hd Ha Hb)
    as (i & j & ra & rb & Hi & Hida & Hj & Hidb & Hpi & Hpj & Hrun).
  exists i, j, ra, rb. repeat (split; [done|]).
  rewrite <- Hrun.
  pose proof (findIndex_rows a rows) as Hfa.
  pose proof (findIndex_rows b rows) as Hfb.
  rewrite Hpi in Hfa. rewrite Hpj in Hfb.
  unfold DnDKitTable.handleDragEnd2, dnd_move. cbn [over active].
  rewrite bool_decide_eq_true_2 by done. rewrite Hcb. cbn [andb].
  do 2 run_step.
  rewrite (bool_decide_eq_false_2 (Z.of_nat i = -1)) by lia.
  rewrite (bool_decide_eq_false_2 (Z.of_nat j = -1)) by lia. cbn [orb].
  symmetry. do 2 run_step.
  unfold call_onReorder_opt. by rewrite Hcb.
Qed.

(** The early return of the second DnDKitTable component. *)
Lemma DnDKitTable2_absent p (rows : list Row) a b
    (w : World DnDKitTable.State2) :
  heap w !! data p = Some (obj <$> rows) →
  a ∉ id <$> rows ∨ b ∉ id <$> rows →
  silent (DnDKitTable.handleDragEnd2 p (mkDragEnd a (Some b))) w.
Proof.
  intros Hd Habs. unfold silent, DnDKitTable.handleDragEnd2.
  cbn [over active].
  destruct (bool_decide (a ≠ b) && onReorder p); [|done].
  pose proof (findIndex_rows a rows) as Hfa.
  pose proof (findIndex_rows b rows) as Hfb.
  do 2 run_step.
  destruct Habs as [Habs|Habs]; apply position_absent in Habs; rewrite Habs.
  - by rewrite bool_decide_eq_true_2.
  - rewrite (bool_decide_eq_true_2 (-1 = -1)) by done.
    by rewrite orb_true_r.
Qed.

(** ** C2, C6: the move *)

(** C2. For rows with unique identifiers and two different identifiers
    that are both present, the drag-end handlers of SecondTable.tsx and of
    DraggableVirtualTable (DnDKitTable.tsx) hand [onReorder] an array that
    is a permutation of [data]: the same rows with the same multiplicity,
    and the same length. *)
Theorem move_is_permutation (p : Props) (rows : list Row) (a b : RowId)
    (w1 : World SecondTable.State) (w2 : World DnDKitTable.State2) :
  NoDup (id <$> rows) → a ∈ id <$> rows → b ∈ id <$> rows → a ≠ b →
  onReorder p = true →
  heap w1 !! data p = Some (obj <$> rows) →
  heap w2 !! data p = Some (obj <$> rows) →
  ∃ rows',
    reports (SecondTable.handleDragEnd p (mkDragEnd a (Some b))) w1
      (obj <$> rows')
    ∧ reports (DnDKitTable.handleDragEnd2 p (mkDragEnd a (Some b))) w2
        (obj <$> rows')
    ∧ rows' ≡ₚ rows ∧ length rows' = length rows.
Proof.
  intros _ Ha Hb Hab Hcb Hd1 Hd2.
  destruct (dnd_move_present p rows a b w1 Hd1 Ha Hb)
    as (i & j & ra & rb & Hi & _ & _ & _ & Hpi & Hpj & Hrun1).
  destruct (DnDKitTable2_present p rows a b w2 Hd2 Ha Hb Hab Hcb)
    as (i' & j' & ra' & rb' & Hi' & _ & _ & _ & Hpi' & Hpj' & Hrun2).
  assert (i' = i) as -> by lia. assert (j' = j) as -> by lia.
  assert (ra' = ra) as -> by congruence.
  exists (reinsert i j ra rows). split; [|split; [|split]].
  - eapply committed_reports; [done|].
    rewrite SecondTable_unfold, bool_decide_eq_true_2 by done. exact Hrun1.
  - eapply committed_reports; [done|]. exact Hrun2.
  - by apply reinsert_Permutation.
  - by apply reinsert_length.
Qed.

(** C6. The move is a move and not a swap: the handlers of SecondTable.tsx
    and of the second VirtuosoTable.tsx component report [data] with the
    dragged row taken out of its index [i] and put back at the index [j]
    of the target row; the dragged row then sits at [j], and the other
    rows are in the order they had. *)
Theorem move_not_swap (p : Props) (rows : list Row) (a b : RowId)
    (w1 : World SecondTable.State) (w2 : World VirtuosoTable.State2) :
  a ∈ id <$> rows → b ∈ id <$> rows → a ≠ b →
  onReorder p = true →
  heap w1 !! data p = Some (obj <$> rows) →
  heap w2 !! data p = Some (obj <$> rows) →
  ∃ i j ra rows',
    position a rows = Z.of_nat i ∧ position b rows = Z.of_nat j
    ∧ rows !! i = Some ra ∧ id ra = a
    ∧ rows' = take j (delete i rows) ++ ra :: drop j (delete i rows)
    ∧ reports (SecondTable.handleDragEnd p (mkDragEnd a (Some b))) w1
        (obj <$> rows')
    ∧ reports (VirtuosoTable.handleDragEnd2 p (mkDragEnd a (Some b))) w2
        (obj <$> rows')
    ∧ rows' !! j = Some ra
    ∧ filter (λ r, r ≠ ra) rows' = filter (λ r, r ≠ ra) rows.
Proof.
  intros Ha Hb Hab Hcb Hd1 Hd2.
  destruct (dnd_move_present p rows a b w1 Hd1 Ha Hb)
    as (i & j & ra & rb & Hi & Hida & Hj & _ & Hpi & Hpj & Hrun1).
  destruct (VirtuosoTable2_present p rows a b w2 Hd2 Ha Hb Hab Hcb)
    as (i' & j' & ra' & rb' & Hi' & _ & _ & _ & Hpi' & Hpj' & Hrun2).
  assert (i' = i) as -> by lia. assert (j' = j) as -> by lia.
  assert (ra' = ra) as -> by congruence.
  exists i, j, ra, (reinsert i j ra rows).
  repeat (split; [done|]). split; [|split; [|split]].
  - eapply committed_reports; [done|].
    rewrite SecondTable_unfold, bool_decide_eq_true_2 by done. exact Hrun1.
  - eapply committed_reports; [done|]. exact Hrun2.
  - apply reinsert_lookup; [done|]. by eapply lookup_lt_Some.
  - apply reinsert_filter; [done|]. by intros [].
Qed.

(** ** C7, C9: the gestures that change nothing *)

(** C7. A row dropped on itself: the handlers of SecondTable.tsx and of
    the first VirtuosoTable.tsx component return with the store, the log
    of [onReorder] calls and the state as they were. *)
Theorem drop_on_self_is_noop (p : Props) (a : RowId)
    (w1 : World SecondTable.State) (w2 : World VirtuosoTable.State) :
  SecondTable.handleDragEnd p (mkDragEnd a (Some a)) w1 = Returned tt w1
  ∧ VirtuosoTable.handleDragEnd p (mkDragEnd a (Some a)) w2 = Returned tt w2.
Proof.
  rewrite SecondTable_unfold, VirtuosoTable_unfold.
  rewrite bool_decide_eq_false_2 by (intros Hne; by apply Hne).
  done.
Qed.

(** C9. A gesture that ends over no drop target, and a cancelled gesture:
    in SecondTable.tsx and in the second VirtuosoTable.tsx component no
    array is written, [onReorder] is not called and the sort state stays
    (a cancel only forgets the dragged identifier where one is kept). *)
Theorem no_target_or_cancel_is_noop (p : Props) (a : RowId)
    (w1 : World SecondTable.State) (w2 : World VirtuosoTable.State2) :
  SecondTable.handleDragEnd p (mkDragEnd a None) w1 = Returned tt w1
  ∧ SecondTable.onDragCancel w1 = Returned tt w1
  ∧ VirtuosoTable.handleDragEnd2 p (mkDragEnd a None) w2 = Returned tt w2
  ∧ ∃ w2', VirtuosoTable.onDragCancel w2 = Returned tt w2'
           ∧ heap w2' = heap w2 ∧ reorders w2' = reorders w2
           ∧ VirtuosoTable.sorting2 (state w2')
             = VirtuosoTable.sorting2 (state w2).
Proof.
  repeat split. eexists. by repeat split.
Qed.

(** ** C8: the input array is left alone *)

Lemma committed_fresh_copy {St} p (w : World St) arr arr' st' :
  heap w !! data p = Some arr →
  reorders (committed p w arr' st') ≠ reorders w →
  reported_fresh_copy p w (committed p w arr' st').
Proof.
  intros Hd Hlog. exists (fresh (dom (heap w))).
  pose proof (fresh_ne w _ _ Hd) as Hne.
  destruct (committed_frame p w arr' st') as [Hnew Hold].
  unfold committed in Hlog |- *. cbn [reorders heap] in *.
  destruct (onReorder p); [|done].
  repeat split; [done|done| |].
  - by rewrite lookup_insert_ne.
  - intros l' Hl'. by rewrite lookup_insert_ne.
Qed.

Lemma committed_data {St} p (w : World St) arr arr' st' :
  heap w !! data p = Some arr →
  heap (committed p w arr' st') !! data p = Some arr.
Proof.
  intros Hd. pose proof (fresh_ne w _ _ Hd) as Hne.
  unfold committed. cbn [heap]. by rewrite lookup_insert_ne.
Qed.

Lemma ThirdTable_run p d k (w : World ThirdTable.State) arr i :
  heap w !! data p = Some arr →
  Js.findIndex (String_id_is d) arr = Some i →
  ThirdTable.handleDragEnd p (mkDragEvent d) k w
  = if bool_decide (i ≠ -1) && bool_decide (i ≠ k)
    then Returned tt (committed p w (move_first arr i k) (state w))
    else Returned tt w.
Proof.
  intros Hd Hi. pose proof (fresh_ne w _ _ Hd) as Hne.
  unfold ThirdTable.handleDragEnd. cbn [text_plain]. run_step.
  destruct (bool_decide (i ≠ -1) && bool_decide (i ≠ k)); [|done].
  do 3 run_step.
  unfold call_onReorder_opt, call_onReorder, committed, move_first, ret.
  rewrite !insert_insert_eq.
  by destruct (onReorder p).
Qed.

Lemma ThirdTable_inv p ev k (w w' : World ThirdTable.State) arr :
  heap w !! data p = Some arr →
  ThirdTable.handleDragEnd p ev k w = Returned tt w' →
  w' = w ∨ ∃ i, w' = committed p w (move_first arr i k) (state w).
Proof.
  intros Hd Hrun. destruct ev as [d].
  destruct (Js.findIndex (String_id_is d) arr) as [i|] eqn:Hi.
  - rewrite (ThirdTable_run p d k w arr i Hd Hi) in Hrun.
    destruct (bool_decide (i ≠ -1) && bool_decide (i ≠ k)).
    + right. exists i. congruence.
    + left. congruence.
  - unfold ThirdTable.handleDragEnd in Hrun.
    erewrite bind_throw in Hrun by (eapply findIndex_throw; eassumption).
    done.
Qed.

Lemma SecondTable_inv p ev (w w' : World SecondTable.State) arr :
  heap w !! data p = Some arr →
  SecondTable.handleDragEnd p ev w = Returned tt w' →
  w' = w ∨ ∃ i j, w' = committed p w (move_splice arr i j) (state w).
Proof.
  intros Hd Hrun. destruct ev as [a [b|]].
  - rewrite SecondTable_unfold in Hrun.
    destruct (bool_decide (a ≠ b)).
    + right. by eapply dnd_move_inv.
    + left. unfold ret in Hrun. congruence.
  - left. cbn in Hrun. unfold ret in Hrun. congruence.
Qed.

(** C8. The handlers of SecondTable.tsx and of the
    ThirdVirtualizedDraggableTable never write to the array of [data]: when
    they return it holds, slot for slot, what it held before. And whenever
    they call [onReorder], they do so with an array that was allocated by
    this very call, every array that existed being left as it was. *)
Theorem reorder_leaves_input_alone (p : Props) (arr : list Val) :
  (∀ (w w' : World SecondTable.State) (event : DragEndEvent),
     heap w !! data p = Some arr →
     SecondTable.handleDragEnd p event w = Returned tt w' →
     heap w' !! data p = Some arr
     ∧ (reorders w' ≠ reorders w → reported_fresh_copy p w w'))
  ∧ (∀ (w w' : World ThirdTable.State) (event : DragEvent) (rowIndex : Z),
       heap w !! data p = Some arr →
       ThirdTable.handleDragEnd p event rowIndex w = Returned tt w' →
       heap w' !! data p = Some arr
       ∧ (reorders w' ≠ reorders w → reported_fresh_copy p w w')).
Proof.
  split.
  - intros w w' event Hd Hrun.
    destruct (SecondTable_inv p event w w' arr Hd Hrun)
      as [->|(i & j & ->)]; [done|].
    split; [by apply committed_data|]. by eapply committed_fresh_copy.
  - intros w w' event rowIndex Hd Hrun.
    destruct (ThirdTable_inv p event rowIndex w w' arr Hd Hrun)
      as [->|(i & ->)]; [done|].
    split; [by apply committed_data|]. by eapply committed_fresh_copy.
Qed.

(** ** The tables written with the HTML drag-and-drop events *)

Lemma try_run {St A} (a : A) (w : World St) : try (Some a) w = Returned a w.
Proof. reflexivity. Qed.

Lemma WindowTable_getRowModel_run `{TableEngine} p
    (w : World WindowTable.State) arr :
  heap w !! data p = Some arr →
  WindowTable.getRowModel p w
  = Returned (rowModel (WindowTable.sorting (state w)) arr) w.
Proof.
  intros Hd. unfold WindowTable.getRowModel.
  by rewrite (bind_run _ _ _ _ _ (read_run _ _ _ Hd)).
Qed.

Lemma VirtualizedTable_getRowModel_run `{TableEngine} p
    (w : World VirtualizedTable.State) arr :
  heap w !! data p = Some arr →
  VirtualizedTable.getRowModel p w
  = Returned (rowModel (VirtualizedTable.sorting (state w)) arr) w.
Proof.
  intros Hd. unfold VirtualizedTable.getRowModel.
  by rewrite (bind_run _ _ _ _ _ (read_run _ _ _ Hd)).
Qed.

Example by_id_descending :
  @rowModel by_id descending (obj <$> rows123) = [obj r3; obj r2; obj r1].
Proof. reflexivity. Qed.

(** The drop of the row with identifier 3 on the row that shows
    identifier 1, which the descending view has at position 2. *)
Lemma WindowTable_sort_then_drag_run `{TableEngine} (p : Props)
    (w : World WindowTable.State) :
  WindowTable.sorting (state w) ≠ [] →
  sortRows (WindowTable.sorting (state w)) (obj <$> rows123)
  = [obj r3; obj r2; obj r1] →
  heap w !! data p = Some (obj <$> rows123) →
  WindowTable.handleDragEnd p (mkDragEvent "3") 2 w
  = Returned tt
      (committed p w [obj r3; obj r1; obj r2] (WindowTable.mkState [])).
Proof.
  intros Hso Hsorted Hd. pose proof (fresh_ne w _ _ Hd) as Hne.
  unfold WindowTable.handleDragEnd. cbn [text_plain].
  erewrite bind_run by (by eapply WindowTable_getRowModel_run).
  assert (rowModel (WindowTable.sorting (state w)) (obj <$> rows123)
          = [obj r3; obj r2; obj r1]) as ->.
  { unfold rowModel. by destruct (WindowTable.sorting (state w)). }
  erewrite bind_run by (eapply try_run). cbn [andb bool_decide].
  rewrite !bool_decide_eq_true_2 by done. cbn [andb].
  run_step.
  erewrite bind_run by (eapply findIndex_run; [heap_lookup|reflexivity]).
  erewrite bind_run by (eapply try_run).
  do 3 run_step.
  unfold get, put, bind, ret, call_onReorder_opt, call_onReorder, committed.
  cbn [heap reorders state].
  rewrite !insert_insert_eq.
  destruct (WindowTable.sorting (state w)) as [|c so]; [done|].
  rewrite bool_decide_eq_true_2 by done.
  by destruct (onReorder p).
Qed.

Lemma VirtualizedTable_sort_then_drag_run `{TableEngine} (p : Props)
    (w : World VirtualizedTable.State) :
  VirtualizedTable.sorting (state w) ≠ [] →
  sortRows (VirtualizedTable.sorting (state w)) (obj <$> rows123)
  = [obj r3; obj r2; obj r1] →
  heap w !! data p = Some (obj <$> rows123) →
  VirtualizedTable.handleDragEnd p (mkDragEvent "3") 2 w
  = Returned tt
      (committed p w [obj r3; obj r1; obj r2]
         (VirtualizedTable.mkState [] false None None)).
Proof.
  intros Hso Hsorted Hd. pose proof (fresh_ne w _ _ Hd) as Hne.
  unfold VirtualizedTable.handleDragEnd. cbn [text_plain].
  erewrite bind_run by (by eapply VirtualizedTable_getRowModel_run).
  assert (rowModel (VirtualizedTable.sorting (state w)) (obj <$> rows123)
          = [obj r3; obj r2; obj r1]) as ->.
  { unfold rowModel. by destruct (VirtualizedTable.sorting (state w)). }
  erewrite bind_run by (eapply try_run).
  rewrite !bool_decide_eq_true_2 by done. cbn [andb].
  erewrite bind_run; cycle 1.
  { run_step.
    erewrite bind_run by (eapply findIndex_run; [heap_lookup|reflexivity]).
    erewrite bind_run by (eapply try_run).
    do 3 run_step.
    unfold VirtualizedTable.setSorting, get, put, bind, ret,
      call_onReorder_opt, call_onReorder.
    cbn [heap reorders state].
    rewrite !insert_insert_eq.
    destruct (VirtualizedTable.sorting (state w)) as [|c so]; [done|].
    rewrite bool_decide_eq_true_2 by done.
    instantiate
      (1 := committed p w [obj r3; obj r1; obj r2]
              (VirtualizedTable.mkState [] _ _ _)).
    unfold committed. by destruct (onReorder p). }
  reflexivity.
Qed.

(** ** C5: sort, then drag *)

(** C5, as the code has it. With [{id:1},{id:2},{id:3}] in [data] and a
    sort that shows them as 3, 2, 1, the drop of row 3 on the row that
    shows identifier 1 (position 2 of the view) makes WindowTable.tsx and
    the VirtualizedDraggableTable call [onReorder] with
    [{id:3},{id:1},{id:2}]: row 3 sits where row 1 sat, rows 1 and 2 keep
    their order. The sort state is empty afterwards. *)
Theorem sort_then_drag `{TableEngine} (p : Props)
    (w1 : World WindowTable.State) (w2 : World VirtualizedTable.State) :
  onReorder p = true →
  WindowTable.sorting (state w1) ≠ [] →
  sortRows (WindowTable.sorting (state w1)) (obj <$> rows123)
  = [obj r3; obj r2; obj r1] →
  heap w1 !! data p = Some (obj <$> rows123) →
  VirtualizedTable.sorting (state w2) ≠ [] →
  sortRows (VirtualizedTable.sorting (state w2)) (obj <$> rows123)
  = [obj r3; obj r2; obj r1] →
  heap w2 !! data p = Some (obj <$> rows123) →
  (∃ w' l,
     WindowTable.handleDragEnd p (mkDragEvent "3") 2 w1 = Returned tt w'
     ∧ reorders w' = reorders w1 ++ [l]
     ∧ heap w' !! l = Some [obj r3; obj r1; obj r2]
     ∧ WindowTable.sorting (state w') = [])
  ∧ (∃ w' l,
       VirtualizedTable.handleDragEnd p (mkDragEvent "3") 2 w2
       = Returned tt w'
       ∧ reorders w' = reorders w2 ++ [l]
       ∧ heap w' !! l = Some [obj r3; obj r1; obj r2]
       ∧ VirtualizedTable.sorting (state w') = []).
Proof.
  intros Hcb Hso1 Hs1 Hd1 Hso2 Hs2 Hd2. split.
  - eexists _, (fresh (dom (heap w1))).
    split; [by apply WindowTable_sort_then_drag_run|].
    unfold committed. cbn [heap reorders state]. rewrite Hcb.
    by rewrite lookup_insert_eq.
  - eexists _, (fresh (dom (heap w2))).
    split; [by apply VirtualizedTable_sort_then_drag_run|].
    unfold committed. cbn [heap reorders state]. rewrite Hcb.
    by rewrite lookup_insert_eq.
Qed.

Lemma sort_then_drag_witness :
  (∃ w' l,
     @WindowTable.handleDragEnd by_id props0 (mkDragEvent "3") 2
       window_sorted = Returned tt w'
     ∧ reorders w' = reorders window_sorted ++ [l]
     ∧ heap w' !! l = Some [obj r3; obj r1; obj r2]
     ∧ WindowTable.sorting (state w') = [])
  ∧ (∃ w' l,
       @VirtualizedTable.handleDragEnd by_id props0 (mkDragEvent "3") 2
         virtualized_sorted = Returned tt w'
       ∧ reorders w' = reorders virtualized_sorted ++ [l]
       ∧ heap w' !! l = Some [obj r3; obj r1; obj r2]
       ∧ VirtualizedTable.sorting (state w') = []).
Proof.
  apply (@sort_then_drag by_id props0 window_sorted virtualized_sorted);
    first [reflexivity | discriminate].
Defined.

(** C5, as the specification words it: the array [{id:2},{id:1},{id:3}]
    is not what WindowTable.tsx reports in the scenario. *)
Lemma sort_then_drag_is_not_213 :
  ¬ ∃ w' l,
      @WindowTable.handleDragEnd by_id props0 (mkDragEvent "3") 2
        window_sorted = Returned tt w'
      ∧ reorders w' = reorders window_sorted ++ [l]
      ∧ heap w' !! l = Some [obj r2; obj r1; obj r3].
Proof.
  intros (w' & l & Hrun & Hlog & Hl).
  rewrite (@WindowTable_sort_then_drag_run by_id) in Hrun
    by first [reflexivity | discriminate].
  injection Hrun as <-. unfold committed in Hlog, Hl.
  cbn [heap reorders props0 onReorder window_sorted app] in Hlog, Hl.
  injection Hlog as <-. rewrite lookup_insert_eq in Hl. discriminate.
Qed.

(** ** C1, C3, C4: where a variant leaves the others *)

(** C1. In the descending view the row at position 0 is row 3, which
    [data] has at index 2. A drop of row 2 on it makes the
    ThirdVirtualizedDraggableTable insert at index 0, the position in the
    view, and report [{id:2},{id:1},{id:3}]; resolved by identifier in
    [data], as WindowTable.tsx does on the same drop, the move gives
    [{id:1},{id:3},{id:2}]. *)
Example third_table_inserts_at_view_position :
  @rowModel by_id descending (obj <$> rows123) !! 0%nat = Some (obj r3)
  ∧ position (NumId 3) rows123 = 2
  ∧ reports (ThirdTable.handleDragEnd props0 (mkDragEvent "2") 0)
      third_sorted [obj r2; obj r1; obj r3]
  ∧ reports (@WindowTable.handleDragEnd by_id props0 (mkDragEvent "2") 0)
      window_sorted [obj r1; obj r3; obj r2]
  ∧ move_first (obj <$> rows123) (position (NumId 2) rows123)
      (position (NumId 3) rows123) = [obj r1; obj r3; obj r2].
Proof.
  split; [reflexivity|]. split; [reflexivity|]. split; [|split].
  - exists (world_after (ThirdTable.handleDragEnd props0 (mkDragEvent "2") 0)
              third_sorted), 2%positive.
    repeat split; vm_compute; reflexivity.
  - exists (world_after
              (@WindowTable.handleDragEnd by_id props0 (mkDragEvent "2") 0)
              window_sorted), 2%positive.
    repeat split; vm_compute; reflexivity.
  - reflexivity.
Qed.

(** C3. SecondTable.tsx on an identifier that [data] does not have. With
    an unknown dragged identifier the last row is lost and [undefined] is
    put at the target; with an unknown target the dragged row moves to the
    last but one place. Neither is a no-op. DraggableVirtualTable
    (DnDKitTable.tsx) returns early on both events and changes nothing. *)
Example second_table_unknown_identifier :
  (NumId 9 ∉ id <$> rows123)
  ∧ reports
      (SecondTable.handleDragEnd props0 (mkDragEnd (NumId 9) (Some (NumId 1))))
      second_unsorted [undefined; obj r1; obj r2]
  ∧ reports
      (SecondTable.handleDragEnd props0 (mkDragEnd (NumId 1) (Some (NumId 9))))
      second_unsorted [obj r2; obj r1; obj r3]
  ∧ silent
      (DnDKitTable.handleDragEnd2 props0
         (mkDragEnd (NumId 9) (Some (NumId 1)))) dndkit_unsorted
  ∧ silent
      (DnDKitTable.handleDragEnd2 props0
         (mkDragEnd (NumId 1) (Some (NumId 9)))) dndkit_unsorted.
Proof.
  split; [|split; [|split; [|split; [vm_compute; reflexivity..]]]].
  - apply (bool_decide_unpack _). by vm_compute.
  - exists (world_after
              (SecondTable.handleDragEnd props0
                 (mkDragEnd (NumId 9) (Some (NumId 1)))) second_unsorted),
           2%positive.
    repeat split; vm_compute; reflexivity.
  - exists (world_after
              (SecondTable.handleDragEnd props0
                 (mkDragEnd (NumId 1) (Some (NumId 9)))) second_unsorted),
           2%positive.
    repeat split; vm_compute; reflexivity.
Qed.

(** C4. SecondTable.tsx in the descending view: the drop of row 3 on
    row 1 is reported to [onReorder] and the sort state is still the
    descending sort. WindowTable.tsx reports the same array on the same
    drop and has an empty sort state afterwards. *)
Example second_table_keeps_the_sort :
  (∃ w' l,
     SecondTable.handleDragEnd props0 (mkDragEnd (NumId 3) (Some (NumId 1)))
       second_sorted = Returned tt w'
     ∧ reorders w' = [l]
     ∧ heap w' !! l = Some [obj r3; obj r1; obj r2]
     ∧ SecondTable.sorting (state w') = descending)
  ∧ (∃ w' l,
       @WindowTable.handleDragEnd by_id props0 (mkDragEvent "3") 2
         window_sorted = Returned tt w'
       ∧ reorders w' = [l]
       ∧ heap w' !! l = Some [obj r3; obj r1; obj r2]
       ∧ WindowTable.sorting (state w') = []).
Proof.
  split.
  - exists (world_after
              (SecondTable.handleDragEnd props0
                 (mkDragEnd (NumId 3) (Some (NumId 1)))) second_sorted),
           2%positive.
    repeat split; vm_compute; reflexivity.
  - exists (world_after
              (@WindowTable.handleDragEnd by_id props0 (mkDragEvent "3") 2)
              window_sorted), 2%positive.
    repeat split; vm_compute; reflexivity.
Qed.

(** ** C10: what the VirtualizedDraggableTable lets be dragged *)

Section virtualized_invariant.
Context `{TableEngine}.
Import VirtualizedTable.

Lemma draggable_unsorted p s :
  draggable p s = true → sorting s = [] ∧ showSortableColumn p = true.
Proof.
  unfold draggable. intros [Hshow Hlen]%andb_true_iff.
  apply bool_decide_eq_true_1 in Hlen. split; [|done].
  by destruct (sorting s).
Qed.










End virtualized_invariant.





(** ** The general theorems at the scenario *)

Lemma move_is_permutation_witness :
  ∃ rows',
    reports
      (SecondTable.handleDragEnd props0 (mkDragEnd (NumId 1) (Some (NumId 3))))
      second_unsorted (obj <$> rows')
    ∧ reports
        (DnDKitTable.handleDragEnd2 props0
           (mkDragEnd (NumId 1) (Some (NumId 3))))
        dndkit_unsorted (obj <$> rows')
    ∧ rows' ≡ₚ rows123 ∧ length rows' = length rows123.
Proof.
  apply (move_is_permutation props0 rows123 (NumId 1) (NumId 3)
           second_unsorted dndkit_unsorted).
  - apply (bool_decide_unpack _). by vm_compute.
  - apply (bool_decide_unpack _). by vm_compute.
  - apply (bool_decide_unpack _). by vm_compute.
  - discriminate.
  - reflexivity.
  - reflexivity.
  - reflexivity.
Defined.

Lemma move_not_swap_witness :
  ∃ i j ra rows',
    position (NumId 1) rows123 = Z.of_nat i
    ∧ position (NumId 3) rows123 = Z.of_nat j
    ∧ rows123 !! i = Some ra ∧ id ra = NumId 1
    ∧ rows' = take j (delete i rows123) ++ ra :: drop j (delete i rows123)
    ∧ reports
        (SecondTable.handleDragEnd props0
           (mkDragEnd (NumId 1) (Some (NumId 3))))
        second_unsorted (obj <$> rows')
    ∧ reports
        (VirtuosoTable.handleDragEnd2 props0
           (mkDragEnd (NumId 1) (Some (NumId 3))))
        virtuoso_unsorted (obj <$> rows')
    ∧ rows' !! j = Some ra
    ∧ filter (λ r, r ≠ ra) rows' = filter (λ r, r ≠ ra) rows123.
Proof.
  apply (move_not_swap props0 rows123 (NumId 1) (NumId 3)
           second_unsorted virtuoso_unsorted).
  - apply (bool_decide_unpack _). by vm_compute.
  - apply (bool_decide_unpack _). by vm_compute.
  - discriminate.
  - reflexivity.
  - reflexivity.
  - reflexivity.
Defined.

Lemma reorder_leaves_input_alone_witness :
  (heap
     (world_after
        (SecondTable.handleDragEnd props0
           (mkDragEnd (NumId 1) (Some (NumId 3)))) second_unsorted)
   !! data props0 = Some (obj <$> rows123)
   ∧ reported_fresh_copy props0 second_unsorted
       (world_after
          (SecondTable.handleDragEnd props0
             (mkDragEnd (NumId 1) (Some (NumId 3)))) second_unsorted))
  ∧ (heap
       (world_after (ThirdTable.handleDragEnd props0 (mkDragEvent "2") 0)
          third_sorted)
     !! data props0 = Some (obj <$> rows123)
     ∧ reported_fresh_copy props0 third_sorted
         (world_after (ThirdTable.handleDragEnd props0 (mkDragEvent "2") 0)
            third_sorted)).
Proof.
  split.
  - assert (SecondTable.handleDragEnd props0
              (mkDragEnd (NumId 1) (Some (NumId 3))) second_unsorted
            = Returned tt
                (world_after
                   (SecondTable.handleDragEnd props0
                      (mkDragEnd (NumId 1) (Some (NumId 3))))
                   second_unsorted)) as Hrun.
    { vm_compute. reflexivity. }
    destruct (proj1 (reorder_leaves_input_alone props0 (obj <$> rows123))
                second_unsorted _ _ eq_refl Hrun) as [Hdata Hcopy].
    split; [exact Hdata|]. apply Hcopy. vm_compute. discriminate.
  - assert (ThirdTable.handleDragEnd props0 (mkDragEvent "2") 0 third_sorted
            = Returned tt
                (world_after
                   (ThirdTable.handleDragEnd props0 (mkDragEvent "2") 0)
                   third_sorted)) as Hrun.
    { vm_compute. reflexivity. }
    destruct (proj2 (reorder_leaves_input_alone props0 (obj <$> rows123))
                third_sorted _ _ _ eq_refl Hrun) as [Hdata Hcopy].
    split; [exact Hdata|]. apply Hcopy. vm_compute. discriminate.
Defined.

(** * More of the code *)

(** ** More on the array primitives *)

Lemma relative_start_range (len k : Z) :
  0 ≤ len → 0 ≤ Js.relative_start len k ≤ len.
Proof.
  intros Hlen. unfold Js.relative_start.
  destruct (Z.ltb_spec k 0); lia.
Qed.

Lemma splice_insert_any {A : Type} (arr : list A) (k : Z) (x : A) :
  Js.splice arr k 0 [x]
  = (take (Z.to_nat (Js.relative_start (Z.of_nat (length arr)) k)) arr
       ++ x
       :: drop (Z.to_nat (Js.relative_start (Z.of_nat (length arr)) k)) arr,
     []).
Proof.
  unfold Js.splice.
  pose proof (relative_start_range (Z.of_nat (length arr)) k) as Hs.
  set (s := Js.relative_start (Z.of_nat (length arr)) k) in *.
  replace (Z.min (Z.max 0 0) (Z.of_nat (length arr) - s)) with 0 by lia.
  by rewrite Z.add_0_r.
Qed.

Lemma move_first_any (arr : list Val) (i : nat) (x : Val) (k : Z) :
  arr !! i = Some x →
  move_first arr (Z.of_nat i) k = reinsert i (landing (length arr) k) x arr.
Proof.
  intros Hx. unfold move_first, landing, reinsert.
  pose proof (lookup_lt_Some _ _ _ Hx) as Hi.
  rewrite splice_remove_at by done. cbn [fst snd].
  rewrite splice_insert_any, length_delete by eauto.
  rewrite (drop_S arr x i Hx). cbn [take Js.first head default].
  by rewrite Nat2Z.inj_sub by lia.
Qed.

Lemma move_splice_any (arr : list Val) (i : nat) (x : Val) (k : Z) :
  arr !! i = Some x →
  move_splice arr (Z.of_nat i) k = reinsert i (landing (length arr) k) x arr.
Proof.
  intros Hx. unfold move_splice, landing, reinsert.
  pose proof (lookup_lt_Some _ _ _ Hx) as Hi.
  rewrite splice_remove_at by done. cbn [fst snd].
  rewrite splice_insert_any, length_delete by eauto.
  rewrite (index_lookup arr i x Hx).
  by rewrite Nat2Z.inj_sub by lia.
Qed.

Lemma landing_inside (len : nat) (k : Z) :
  0 ≤ k → landing len k = (Z.to_nat k `min` (len - 1))%nat.
Proof.
  intros Hk. unfold landing, Js.relative_start.
  destruct (Z.ltb_spec k 0); [lia|]. lia.
Qed.

Lemma fmap_reinsert {A B : Type} (f : A → B) (i j : nat) (x : A) (l : list A) :
  f <$> reinsert i j x l = reinsert i j (f x) (f <$> l).
Proof.
  unfold reinsert.
  by rewrite fmap_app, fmap_cons, fmap_take, fmap_drop, !list_fmap_delete.
Qed.

(** ** Looking a row up by a test *)

Section first_index.
Context (Q : Row → Prop) `{∀ r, Decision (Q r)}.

Lemma findIndex_from_first_index (cb : Val → option bool) (rows : list Row)
    (k : Z) :
  (∀ r, cb (obj r) = Some (bool_decide (Q r))) →
  Js.findIndex_from cb (obj <$> rows) k
  = Some (match list_find Q rows with
          | Some (i, _) => k + Z.of_nat i
          | None => -1
          end).
Proof.
  intros Hcb. revert k. induction rows as [|r rows IH]; intros k; [done|].
  cbn [fmap list_fmap Js.findIndex_from list_find]. rewrite Hcb.
  destruct (decide (Q r)) as [Hq|Hq].
  - rewrite bool_decide_eq_true_2 by done. f_equal. lia.
  - rewrite bool_decide_eq_false_2 by done.
    change (list_fmap Row Val obj rows) with (obj <$> rows). rewrite IH.
    destruct (list_find Q rows) as [[i r']|]; simpl; f_equal. lia.
Qed.

Lemma findIndex_first_index (cb : Val → option bool) (rows : list Row) :
  (∀ r, cb (obj r) = Some (bool_decide (Q r))) →
  Js.findIndex cb (obj <$> rows) = Some (first_index Q rows).
Proof.
  intros Hcb. unfold Js.findIndex, first_index.
  rewrite findIndex_from_first_index by done.
  by destruct (list_find Q rows) as [[i r']|].
Qed.

Lemma first_index_cases (rows : list Row) :
  (first_index Q rows = -1 ∧ ∀ r, r ∈ rows → ¬ Q r)
  ∨ ∃ i r, first_index Q rows = Z.of_nat i ∧ rows !! i = Some r ∧ Q r.
Proof.
  unfold first_index.
  destruct (list_find Q rows) as [[i r]|] eqn:Hfind.
  - right. apply list_find_Some in Hfind as (Hi & Hq & _). eauto.
  - left. split; [done|]. intros r Hr Hq.
    apply list_find_None in Hfind.
    by eapply (proj1 (Forall_forall _ _) Hfind).
Qed.

Lemma first_index_none (rows : list Row) :
  (∀ r, r ∈ rows → ¬ Q r) → first_index Q rows = -1.
Proof.
  intros Hnone.
  destruct (first_index_cases rows) as [[-> _]|(i & r & _ & Hi & Hq)];
    [done|].
  exfalso. eapply Hnone; [|done]. by eapply list_elem_of_lookup_2.
Qed.
End first_index.

Lemma first_index_unique {B : Type} `{EqDecision B} (f : Row → B)
    (rows : list Row) (i : nat) (r : Row) :
  NoDup (f <$> rows) → rows !! i = Some r →
  first_index (λ r', f r' = f r) rows = Z.of_nat i.
Proof.
  intros Hnd Hi.
  destruct (first_index_cases (λ r', f r' = f r) rows)
    as [[_ Hnone]|(i' & r' & -> & Hi' & Hq)].
  - exfalso. eapply Hnone; [|done]. by eapply list_elem_of_lookup_2.
  - f_equal. eapply NoDup_lookup; [exact Hnd| |].
    + by rewrite list_lookup_fmap, Hi'.
    + by rewrite list_lookup_fmap, Hi, Hq.
Qed.

Lemma String_id_is_label (d : string) (r : Row) :
  String_id_is d (obj r) = Some (bool_decide (label r = d)).
Proof. reflexivity. Qed.

(** ** ThirdVirtualizedDraggableTable *)

Lemma ThirdTable_rows_run p d k (w : World ThirdTable.State) rows :
  heap w !! data p = Some (obj <$> rows) →
  ThirdTable.handleDragEnd p (mkDragEvent d) k w
  = if bool_decide (first_index (λ r, label r = d) rows ≠ -1)
       && bool_decide (first_index (λ r, label r = d) rows ≠ k)
    then Returned tt
           (committed p w
              (move_first (obj <$> rows)
                 (first_index (λ r, label r = d) rows) k) (state w))
    else Returned tt w.
Proof.
  intros Hd. apply ThirdTable_run; [done|].
  apply findIndex_first_index, String_id_is_label.
Qed.

Lemma ThirdTable_outcome_rows (p : Props) (rows : list Row)
    (event : DragEvent) (rowIndex : Z) (w : World ThirdTable.State) :
  heap w !! data p = Some (obj <$> rows) →
  ∃ w', ThirdTable.handleDragEnd p event rowIndex w = Returned tt w'
        ∧ (w' = w
           ∨ ∃ rows', rows' ≡ₚ rows
                      ∧ w' = committed p w (obj <$> rows') (state w)).
Proof.
  intros Hd. destruct event as [d].
  rewrite (ThirdTable_rows_run p d rowIndex w rows Hd).
  destruct (first_index_cases (λ r, label r = d) rows)
    as [[-> _]|(i & r & -> & Hi & _)].
  - eexists. split; [reflexivity|]. by left.
  - destruct (bool_decide (Z.of_nat i ≠ -1)
              && bool_decide (Z.of_nat i ≠ rowIndex)).
    + eexists. split; [reflexivity|]. right.
      exists (reinsert i (landing (length rows) rowIndex) r rows).
      split; [by apply reinsert_Permutation|].
      rewrite (move_first_any _ i (obj r)) by (by rewrite list_lookup_fmap, Hi).
      by rewrite fmap_reinsert, length_fmap.
    + eexists. split; [reflexivity|]. by left.
Qed.

(** X1. On an array of rows the handler of the
    ThirdVirtualizedDraggableTable never raises, whatever the text of the
    drag and whatever the index of the drop, and it either changes nothing
    or copies [data] into a new array that holds the same rows in some
    order: no row is lost, doubled or replaced by [undefined]. *)
Theorem ThirdTable_keeps_the_rows (p : Props) (rows : list Row)
    (event : DragEvent) (rowIndex : Z) (w : World ThirdTable.State) :
  heap w !! data p = Some (obj <$> rows) →
  ∃ w', ThirdTable.handleDragEnd p event rowIndex w = Returned tt w'
        ∧ (w' = w
           ∨ ∃ rows', rows' ≡ₚ rows
                      ∧ w' = committed p w (obj <$> rows') (state w)).
Proof. apply ThirdTable_outcome_rows. Qed.

Lemma not_label_elem (rows : list Row) (d : string) :
  d ∉ label <$> rows → ∀ r, r ∈ rows → label r ≠ d.
Proof.
  intros Hd r Hr Heq. apply Hd. apply list_elem_of_fmap. by exists r.
Qed.

(** X2. With identifiers that are strings or safe integers, a drop whose
    text is [String(id)] of no row of [data] (a drag that did not start on
    a row of the table) changes nothing in the
    ThirdVirtualizedDraggableTable: the guard [draggedIndex !== -1]. *)
Theorem ThirdTable_unknown_text (p : Props) (rows : list Row) (d : string)
    (rowIndex : Z) (w : World ThirdTable.State) :
  heap w !! data p = Some (obj <$> rows) →
  safe_rows rows →
  d ∉ label <$> rows →
  ThirdTable.handleDragEnd p (mkDragEvent d) rowIndex w = Returned tt w.
Proof.
  intros Hd _ Hnone. rewrite (ThirdTable_rows_run p d rowIndex w rows Hd).
  rewrite first_index_none; [done|]. by apply not_label_elem.
Qed.

Lemma ThirdTable_drop_run (p : Props) (rows : list Row) (i : nat)
    (ra : Row) (rowIndex : Z) (w : World ThirdTable.State) :
  heap w !! data p = Some (obj <$> rows) →
  NoDup (label <$> rows) → rows !! i = Some ra → 0 ≤ rowIndex →
  ThirdTable.handleDragEnd p (mkDragEvent (label ra)) rowIndex w
  = if bool_decide (rowIndex = Z.of_nat i) then Returned tt w
    else Returned tt
           (committed p w
              (obj <$> reinsert i (Z.to_nat rowIndex `min` (length rows - 1))
                         ra rows)
              (state w)).
Proof.
  intros Hd Hnd Hi Hk. rewrite (ThirdTable_rows_run p _ rowIndex w rows Hd).
  rewrite (first_index_unique label rows i ra Hnd Hi).
  rewrite (bool_decide_eq_true_2 (Z.of_nat i ≠ -1)) by lia. cbn [andb].
  destruct (decide (rowIndex = Z.of_nat i)) as [->|Hne].
  - rewrite bool_decide_eq_false_2 by (intros Hn; by apply Hn).
    by rewrite bool_decide_eq_true_2.
  - rewrite bool_decide_eq_true_2 by congruence.
    rewrite bool_decide_eq_false_2 by done.
    rewrite (move_first_any _ i (obj ra)) by (by rewrite list_lookup_fmap, Hi).
    by rewrite fmap_reinsert, length_fmap, landing_inside.
Qed.

(** X3. With identifiers that are strings or safe integers and print
    differently, the drop of the row at index [i] of [data] at a drop
    index [rowIndex >= 0] does nothing when [rowIndex] is [i]; otherwise
    the row is taken out and put back at [rowIndex], and behind the last
    row when [rowIndex] is past the end (the splice clamps it). *)
Theorem ThirdTable_drop_at_index (p : Props) (rows : list Row) (i : nat)
    (ra : Row) (rowIndex : Z) (w : World ThirdTable.State) :
  heap w !! data p = Some (obj <$> rows) →
  safe_rows rows →
  NoDup (label <$> rows) → rows !! i = Some ra → 0 ≤ rowIndex →
  ThirdTable.handleDragEnd p (mkDragEvent (label ra)) rowIndex w
  = if bool_decide (rowIndex = Z.of_nat i) then Returned tt w
    else Returned tt
           (committed p w
              (obj <$> reinsert i (Z.to_nat rowIndex `min` (length rows - 1))
                         ra rows)
              (state w)).
Proof. intros Hd _. by apply ThirdTable_drop_run. Qed.

(** ** WindowTable.tsx and the VirtualizedDraggableTable on any drop *)

Lemma try_throw {St A} (w : World St) : try (@None A) w = Threw.
Proof. reflexivity. Qed.

Lemma indexOf_from_rows (x : Row) (rows : list Row) (k : Z) :
  Js.indexOf_from (obj x) (obj <$> rows) k
  = match list_find (λ r, ref r = ref x) rows with
    | Some (i, _) => k + Z.of_nat i
    | None => -1
    end.
Proof.
  revert k. induction rows as [|r rows IH]; intros k; [done|].
  cbn [fmap list_fmap Js.indexOf_from list_find strict_eq].
  destruct (decide (ref r = ref x)) as [Hq|Hq].
  - rewrite bool_decide_eq_true_2 by done. lia.
  - rewrite bool_decide_eq_false_2 by done.
    change (list_fmap Row Val obj rows) with (obj <$> rows). rewrite IH.
    destruct (list_find _ rows) as [[i r']|]; simpl; lia.
Qed.

Lemma indexOf_rows (x : Row) (rows : list Row) :
  Js.indexOf (obj x) (obj <$> rows) = first_index (λ r, ref r = ref x) rows.
Proof.
  unfold Js.indexOf, first_index. rewrite indexOf_from_rows.
  by destruct (list_find _ rows) as [[i r']|].
Qed.

(** What [handleDragEnd] of WindowTable.tsx does, case by case. *)
Lemma WindowTable_outcome `{TableEngine} p d k (w : World WindowTable.State)
    arr :
  heap w !! data p = Some arr →
  WindowTable.handleDragEnd p (mkDragEvent d) k w
  = match Js.findIndex (String_id_is d)
            (rowModel (WindowTable.sorting (state w)) arr) with
    | None => Threw
    | Some ds =>
        if bool_decide (ds ≠ -1) && bool_decide (ds ≠ k) then
          match Js.findIndex (String_id_is d) arr,
                row_original (rowModel (WindowTable.sorting (state w)) arr) k
          with
          | Some si, Some target =>
              Returned tt
                (committed p w (move_first arr si (Js.indexOf target arr))
                   (WindowTable.mkState []))
          | _, _ => Threw
          end
        else Returned tt w
    end.
Proof.
  intros Hd. pose proof (fresh_ne w _ _ Hd) as Hne.
  unfold WindowTable.handleDragEnd. cbn [text_plain].
  erewrite bind_run by (by eapply WindowTable_getRowModel_run).
  destruct (Js.findIndex (String_id_is d) _) as [ds|] eqn:Hds; [|done].
  erewrite bind_run by (eapply try_run).
  destruct (bool_decide (ds ≠ -1) && bool_decide (ds ≠ k)); [|done].
  run_step.
  destruct (Js.findIndex (String_id_is d) arr) as [si|] eqn:Hsi; cycle 1.
  { erewrite bind_throw; [done|]. eapply findIndex_throw; [heap_lookup|done]. }
  run_step.
  destruct (row_original _ k) as [target|]; [|done].
  erewrite bind_run by (eapply try_run).
  do 3 run_step.
  unfold get, put, bind, ret, call_onReorder_opt, call_onReorder, committed,
    move_first.
  cbn [heap reorders state]. rewrite !insert_insert_eq.
  destruct (state w) as [so]. cbn [WindowTable.sorting].
  destruct so as [|c so].
  - rewrite bool_decide_eq_false_2 by (intros Hn; by apply Hn).
    by destruct (onReorder p).
  - rewrite bool_decide_eq_true_2 by done. by destruct (onReorder p).
Qed.

Lemma VirtualizedTable_outcome `{TableEngine} p d k
    (w : World VirtualizedTable.State) arr :
  heap w !! data p = Some arr →
  VirtualizedTable.handleDragEnd p (mkDragEvent d) k w
  = match Js.findIndex (String_id_is d)
            (rowModel (VirtualizedTable.sorting (state w)) arr) with
    | None => Threw
    | Some ds =>
        if bool_decide (ds ≠ -1) && bool_decide (ds ≠ k) then
          match Js.findIndex (String_id_is d) arr,
                row_original
                  (rowModel (VirtualizedTable.sorting (state w)) arr) k
          with
          | Some si, Some target =>
              Returned tt
                (committed p w (move_first arr si (Js.indexOf target arr))
                   (VirtualizedTable.mkState [] false None None))
          | _, _ => Threw
          end
        else
          Returned tt
            (mkWorld (heap w) (reorders w)
               (VirtualizedTable.mkState
                  (VirtualizedTable.sorting (state w)) false None None))
    end.
Proof.
  intros Hd. pose proof (fresh_ne w _ _ Hd) as Hne.
  unfold VirtualizedTable.handleDragEnd. cbn [text_plain].
  erewrite bind_run by (by eapply VirtualizedTable_getRowModel_run).
  destruct (Js.findIndex (String_id_is d) _) as [ds|] eqn:Hds; [|done].
  erewrite bind_run by (eapply try_run).
  destruct (bool_decide (ds ≠ -1) && bool_decide (ds ≠ k)); [|done].
  destruct (Js.findIndex (String_id_is d) arr) as [si|] eqn:Hsi; cycle 1.
  { erewrite bind_throw; [done|]. run_step.
    erewrite bind_throw; [done|]. eapply findIndex_throw; [heap_lookup|done]. }
  destruct (row_original _ k) as [target|] eqn:Htarget; cycle 1.
  { erewrite bind_throw; [done|]. by do 2 run_step. }
  erewrite bind_run; cycle 1.
  { do 2 run_step.
    erewrite bind_run by (eapply try_run).
    do 3 run_step.
    unfold VirtualizedTable.setSorting, get, put, bind, ret,
      call_onReorder_opt, call_onReorder, move_first.
    cbn [heap reorders state]. rewrite !insert_insert_eq.
    instantiate
      (1 := committed p w _
              (VirtualizedTable.mkState [] (VirtualizedTable.isDragging (state w))
                 (VirtualizedTable.draggedRowIndex (state w))
                 (VirtualizedTable.overRowIndex (state w)))).
    unfold committed.
    destruct (state w) as [so dr di oi].
    cbn [VirtualizedTable.sorting VirtualizedTable.isDragging
         VirtualizedTable.draggedRowIndex VirtualizedTable.overRowIndex].
    destruct so as [|c so].
    - rewrite bool_decide_eq_false_2 by (intros Hn; by apply Hn).
      by destruct (onReorder p).
    - rewrite bool_decide_eq_true_2 by done. by destruct (onReorder p). }
  reflexivity.
Qed.

Lemma row_original_lookup (view : list Row) (k : nat) (r : Row) :
  view !! k = Some r → row_original (obj <$> view) (Z.of_nat k) = Some (obj r).
Proof.
  intros Hk. unfold row_original.
  destruct (Z.ltb_spec (Z.of_nat k) 0); [lia|].
  by rewrite Nat2Z.id, list_lookup_fmap, Hk.
Qed.

(** X4. Whenever the handler of WindowTable.tsx returns, either nothing
    has changed, or [data] has been copied and reported and the sort state
    is empty: no reorder is committed with a sort left on. *)
Theorem WindowTable_commit_clears_sort `{TableEngine} (p : Props)
    (event : DragEvent) (rowIndex : Z) (w w' : World WindowTable.State) :
  WindowTable.handleDragEnd p event rowIndex w = Returned tt w' →
  w' = w ∨ ∃ arr', w' = committed p w arr' (WindowTable.mkState []).
Proof.
  intros Hrun. destruct event as [d].
  destruct (heap w !! data p) as [arr|] eqn:Hd; cycle 1.
  { unfold WindowTable.handleDragEnd, WindowTable.getRowModel, bind, read
      in Hrun. by rewrite Hd in Hrun. }
  rewrite (WindowTable_outcome p d rowIndex w arr Hd) in Hrun.
  repeat case_match; simplify_eq; eauto.
Qed.

(** X5. Whenever the drop handler of the VirtualizedDraggableTable
    returns, the drag state is reset ([isDragging] false, no dragged and no
    hovered row index); the store and the sort state are as they were, or
    [data] has been copied and reported and the sort state is empty. *)
Theorem VirtualizedTable_drop_resets `{TableEngine} (p : Props)
    (event : DragEvent) (rowIndex : Z) (w w' : World VirtualizedTable.State) :
  VirtualizedTable.handleDragEnd p event rowIndex w = Returned tt w' →
  w' = mkWorld (heap w) (reorders w)
         (VirtualizedTable.mkState (VirtualizedTable.sorting (state w))
            false None None)
  ∨ ∃ arr',
      w' = committed p w arr' (VirtualizedTable.mkState [] false None None).
Proof.
  intros Hrun. destruct event as [d].
  destruct (heap w !! data p) as [arr|] eqn:Hd; cycle 1.
  { unfold VirtualizedTable.handleDragEnd, VirtualizedTable.getRowModel,
      bind, read in Hrun. by rewrite Hd in Hrun. }
  rewrite (VirtualizedTable_outcome p d rowIndex w arr Hd) in Hrun.
  repeat case_match; simplify_eq; eauto.
Qed.

Section view.
Context `{TableEngine}.

(** The drop of [ra] on the row at position [k] of a view of the rows. *)
Lemma view_drop_indices (rows view : list Row) (ra rb : Row) (k : nat) :
  view ≡ₚ rows → NoDup (label <$> rows) → NoDup (ref <$> rows) →
  ra ∈ rows → view !! k = Some rb →
  ∃ kv i j,
    view !! kv = Some ra ∧ rows !! i = Some ra ∧ rows !! j = Some rb
    ∧ Js.findIndex (String_id_is (label ra)) (obj <$> view)
      = Some (Z.of_nat kv)
    ∧ Js.findIndex (String_id_is (label ra)) (obj <$> rows)
      = Some (Z.of_nat i)
    ∧ Js.indexOf (obj rb) (obj <$> rows) = Z.of_nat j.
Proof.
  intros Hperm Hlabels Hrefs Ha Hk.
  assert (NoDup (label <$> view)) as Hvlabels by (by rewrite Hperm).
  assert (ra ∈ view) as Hav by (by rewrite Hperm).
  assert (rb ∈ rows) as Hb.
  { rewrite <- Hperm. by eapply list_elem_of_lookup_2. }
  apply list_elem_of_lookup in Hav as [kv Hkv].
  apply list_elem_of_lookup in Ha as [i Hi].
  apply list_elem_of_lookup in Hb as [j Hj].
  exists kv, i, j. repeat (split; [done|]). split; [|split].
  - rewrite (findIndex_first_index (λ r, label r = label ra))
      by apply String_id_is_label.
    by rewrite (first_index_unique label view kv ra).
  - rewrite (findIndex_first_index (λ r, label r = label ra))
      by apply String_id_is_label.
    by rewrite (first_index_unique label rows i ra).
  - rewrite indexOf_rows. by rewrite (first_index_unique ref rows j rb).
Qed.

Lemma WindowTable_resolves_run (p : Props) (rows view : list Row)
    (ra rb : Row) (k : nat) (w : World WindowTable.State) :
  heap w !! data p = Some (obj <$> rows) →
  rowModel (WindowTable.sorting (state w)) (obj <$> rows) = obj <$> view →
  view ≡ₚ rows → NoDup (label <$> rows) → NoDup (ref <$> rows) →
  ra ∈ rows → view !! k = Some rb → ra ≠ rb →
  ∃ i j,
    rows !! i = Some ra ∧ rows !! j = Some rb
    ∧ WindowTable.handleDragEnd p (mkDragEvent (label ra)) (Z.of_nat k) w
      = Returned tt
          (committed p w (obj <$> reinsert i j ra rows)
             (WindowTable.mkState [])).
Proof.
  intros Hd Hview Hperm Hlabels Hrefs Ha Hk Hab.
  destruct (view_drop_indices rows view ra rb k Hperm Hlabels Hrefs Ha Hk)
    as (kv & i & j & Hkv & Hi & Hj & Hfv & Hfd & Hio).
  exists i, j. repeat (split; [done|]).
  rewrite (WindowTable_outcome p _ _ w _ Hd), Hview, Hfv, Hfd.
  rewrite (row_original_lookup view k rb Hk), Hio.
  rewrite (bool_decide_eq_true_2 (Z.of_nat kv ≠ -1)) by lia.
  rewrite (bool_decide_eq_true_2 (Z.of_nat kv ≠ Z.of_nat k)); cycle 1.
  { intros Heq. apply Hab. assert (kv = k) as -> by lia. congruence. }
  cbn [andb].
  rewrite (move_first_valid _ i j (obj ra)).
  - by rewrite fmap_reinsert.
  - by rewrite list_lookup_fmap, Hi.
  - rewrite length_fmap. by eapply lookup_lt_Some.
Qed.

(** X6. Under any sort whose view shows every row of [data] once, with
    rows that are different objects and identifiers that are strings or
    safe integers and print differently: the drop of row [ra] on the row [rb] shown at position [k]
    of the view makes WindowTable.tsx report [data] with [ra] taken out of
    its index in [data] and put back at the index [rb] has in [data], and
    leaves an empty sort state. The position in the view plays no part. *)
Theorem WindowTable_resolves_in_data (p : Props) (rows view : list Row)
    (ra rb : Row) (k : nat) (w : World WindowTable.State) :
  heap w !! data p = Some (obj <$> rows) →
  rowModel (WindowTable.sorting (state w)) (obj <$> rows) = obj <$> view →
  safe_rows rows →
  view ≡ₚ rows → NoDup (label <$> rows) → NoDup (ref <$> rows) →
  ra ∈ rows → view !! k = Some rb → ra ≠ rb →
  ∃ i j,
    rows !! i = Some ra ∧ rows !! j = Some rb
    ∧ WindowTable.handleDragEnd p (mkDragEvent (label ra)) (Z.of_nat k) w
      = Returned tt
          (committed p w (obj <$> reinsert i j ra rows)
             (WindowTable.mkState [])).
Proof. intros Hd Hview _. by apply WindowTable_resolves_run. Qed.


(** X8. A gesture on the VirtualizedDraggableTable, from start to drop,
    for rows that are different objects with identifiers that are strings
    or safe integers and print differently: on a draggable table the drag
    of the row at [i] puts the identifier of that row in the drag data
    and sets [isDragging]; the drop of that drag data on the row at [j]
    then reports [data] with the row moved from [i] to [j], and leaves the
    table in its initial state. *)
Theorem VirtualizedTable_drag_and_drop (p : Props) (rows : list Row)
    (i j : nat) (ra rb : Row) (m : VirtualizedTable.Machine) :
  heap (VirtualizedTable.world m) !! data p = Some (obj <$> rows) →
  VirtualizedTable.draggable p (state (VirtualizedTable.world m)) = true →
  safe_rows rows →
  NoDup (label <$> rows) → NoDup (ref <$> rows) →
  rows !! i = Some ra → rows !! j = Some rb → i ≠ j →
  ∃ m1,
    VirtualizedTable.step p m (VirtualizedTable.DragStart (Z.of_nat i))
    = Some m1
    ∧ VirtualizedTable.store m1 = label ra
    ∧ VirtualizedTable.isDragging (state (VirtualizedTable.world m1)) = true
    ∧ VirtualizedTable.step p m1
        (VirtualizedTable.Drop (mkDragEvent (VirtualizedTable.store m1))
           (Z.of_nat j))
      = Some
          (VirtualizedTable.mkMachine
             (committed p (VirtualizedTable.world m)
                (obj <$> reinsert i j ra rows) VirtualizedTable.initial)
             (label ra)).
Proof.
  intros Hd Hdr _ Hlabels Hrefs Hi Hj Hij.
  destruct (draggable_unsorted p _ Hdr) as [Hso _].
  destruct m as [w st]. cbn [VirtualizedTable.world] in *.
  eexists. split.
  { cbn [VirtualizedTable.step VirtualizedTable.world].
    unfold VirtualizedTable.onDragStart.
    erewrite bind_run by (by eapply VirtualizedTable_getRowModel_run).
    rewrite Hso. cbn [rowModel].
    rewrite (row_original_lookup rows i ra Hi).
    reflexivity. }
  cbn [VirtualizedTable.store VirtualizedTable.world state
       VirtualizedTable.isDragging].
  repeat (split; [done|]).
  cbn [VirtualizedTable.step VirtualizedTable.world VirtualizedTable.store].
  rewrite (VirtualizedTable_outcome p _ _ _ (obj <$> rows)) by done.
  cbn [state VirtualizedTable.sorting]. rewrite !Hso. cbn [rowModel].
  rewrite (findIndex_first_index (λ r, label r = label ra))
    by apply String_id_is_label.
  rewrite (first_index_unique label rows i ra Hlabels Hi).
  rewrite (bool_decide_eq_true_2 (Z.of_nat i ≠ -1)) by lia.
  rewrite (bool_decide_eq_true_2 (Z.of_nat i ≠ Z.of_nat j)) by lia.
  cbn [andb].
  rewrite (row_original_lookup rows j rb Hj), indexOf_rows.
  rewrite (first_index_unique ref rows j rb Hrefs Hj).
  rewrite (move_first_valid _ i j (obj ra)).
  - by rewrite fmap_reinsert.
  - by rewrite list_lookup_fmap, Hi.
  - rewrite length_fmap. by eapply lookup_lt_Some.
Qed.
End view.

(** ** The handlers written with the drag-and-drop library, on any event *)

Lemma position_first_index (a : RowId) (rows : list Row) :
  position a rows = first_index (λ r, id r = a) rows.
Proof. reflexivity. Qed.

(** X9. On an array of rows the handler of DraggableVirtualTable
    (DnDKitTable.tsx) never raises, whatever the event (identifiers that
    are unknown or equal, no target, no callback, empty [data]), and it
    either changes nothing or copies [data] into a new array that holds
    the same rows in some order. *)
Theorem DnDKitTable2_keeps_the_rows (p : Props) (rows : list Row)
    (event : DragEndEvent) (w : World DnDKitTable.State2) :
  heap w !! data p = Some (obj <$> rows) →
  ∃ w', DnDKitTable.handleDragEnd2 p event w = Returned tt w'
        ∧ (w' = w
           ∨ ∃ rows', rows' ≡ₚ rows
                      ∧ w' = committed p w (obj <$> rows') (state w)).
Proof.
  intros Hd. pose proof (fresh_ne w _ _ Hd) as Hne.
  destruct event as [a [b|]]; [|by eexists; split; [|left]].
  unfold DnDKitTable.handleDragEnd2. cbn [over active].
  destruct (bool_decide (a ≠ b)); cbn [andb];
    [|by eexists; split; [|left]].
  destruct (onReorder p) eqn:Hcb; [|by eexists; split; [|left]].
  pose proof (findIndex_rows a rows) as Hfa.
  pose proof (findIndex_rows b rows) as Hfb.
  do 2 run_step. rewrite !position_first_index.
  destruct (first_index_cases (λ r, id r = a) rows)
    as [[-> _]|(i & ra & -> & Hi & _)];
    [by eexists; split; [|left]|].
  destruct (first_index_cases (λ r, id r = b) rows)
    as [[-> _]|(j & rb & -> & Hj & _)].
  { rewrite (bool_decide_eq_true_2 (-1 = -1)) by done.
    rewrite orb_true_r. by eexists; split; [|left]. }
  rewrite (bool_decide_eq_false_2 (Z.of_nat i = -1)) by lia.
  rewrite (bool_decide_eq_false_2 (Z.of_nat j = -1)) by lia. cbn [orb].
  do 4 run_step. eexists. split; [reflexivity|]. right.
  exists (reinsert i j ra rows). split; [by apply reinsert_Permutation|].
  rewrite fmap_reinsert.
  rewrite <- (move_splice_valid (obj <$> rows) i j (obj ra)); cycle 1.
  { by rewrite list_lookup_fmap, Hi. }
  { rewrite length_fmap. by eapply lookup_lt_Some. }
  unfold committed, move_splice. cbn [heap reorders state].
  by rewrite Hcb, !insert_insert_eq.
Qed.

Lemma landing_minus_one (len : nat) : landing len (-1) = (len - 2)%nat.
Proof. unfold landing, Js.relative_start. simpl. lia. Qed.

(** X10. SecondTable.tsx with a known dragged row and a target identifier
    that [data] does not have: the row is not lost, it is put before the
    last of the other rows ([splice(-1, 0, row)]). *)
Theorem SecondTable_unknown_target (p : Props) (rows : list Row)
    (a b : RowId) (w : World SecondTable.State) :
  heap w !! data p = Some (obj <$> rows) →
  a ∈ id <$> rows → b ∉ id <$> rows →
  ∃ i ra,
    rows !! i = Some ra ∧ id ra = a
    ∧ SecondTable.handleDragEnd p (mkDragEnd a (Some b)) w
      = Returned tt
          (committed p w (obj <$> reinsert i (length rows - 2) ra rows)
             (state w)).
Proof.
  intros Hd Ha Hb.
  assert (a ≠ b) as Hab by (intros ->; done).
  destruct (position_present a rows Ha) as (i & ra & Hpi & Hi & Hida).
  exists i, ra. repeat (split; [done|]).
  rewrite SecondTable_unfold, bool_decide_eq_true_2 by done.
  rewrite (dnd_move_run p a b w _ _ _ Hd (findIndex_rows a rows)
             (findIndex_rows b rows)).
  rewrite Hpi, (position_absent b rows Hb).
  rewrite (move_splice_any _ i (obj ra)) by (by rewrite list_lookup_fmap, Hi).
  by rewrite fmap_reinsert, length_fmap, landing_minus_one.
Qed.

Lemma splice_remove_last {A : Type} (arr : list A) :
  (Js.splice arr (-1) 1 []).1 = take (length arr - 1) arr.
Proof.
  unfold Js.splice, Js.relative_start. cbn [fst Z.ltb Z.compare app].
  destruct arr as [|x arr]; [done|].
  replace (Z.max (Z.of_nat (length (x :: arr)) + -1) 0)
    with (Z.of_nat (length (x :: arr) - 1)) by (simpl; lia).
  replace (Z.min (Z.max 1 0) _) with 1 by (simpl; lia).
  rewrite Nat2Z.id.
  rewrite (drop_ge (x :: arr)) by (simpl; lia).
  by rewrite app_nil_r.
Qed.

(** X11. SecondTable.tsx with a dragged identifier that [data] does not
    have: for every [data] the array reported is [data] without its last
    row and with an [undefined] spliced in. *)
Theorem SecondTable_unknown_dragged (p : Props) (rows : list Row)
    (a b : RowId) (w : World SecondTable.State) :
  heap w !! data p = Some (obj <$> rows) →
  a ∉ id <$> rows → a ≠ b →
  ∃ k,
    SecondTable.handleDragEnd p (mkDragEnd a (Some b)) w
    = Returned tt
        (committed p w
           ((obj <$> take k (take (length rows - 1) rows))
            ++ undefined :: (obj <$> drop k (take (length rows - 1) rows)))
           (state w)).
Proof.
  intros Hd Ha Hab.
  rewrite SecondTable_unfold, bool_decide_eq_true_2 by done.
  rewrite (dnd_move_run p a b w _ _ _ Hd (findIndex_rows a rows)
             (findIndex_rows b rows)).
  rewrite (position_absent a rows Ha).
  unfold move_splice. rewrite splice_remove_last, splice_insert_any.
  cbn [fst]. eexists.
  rewrite length_fmap, <- !fmap_take, <- fmap_drop. reflexivity.
Qed.

(** ** The dragged identifier a table keeps *)

(** X12. The dragged identifier the tables with a drag overlay keep. The
    first DnDKitTable.tsx component forgets it at every drag end; the
    second VirtuosoTable.tsx component forgets it when the gesture ends
    over a target, and returns before that when there is none, so that
    [activeId] stays set. Neither touches the sort state. *)
Theorem drag_end_and_activeId (p : Props) :
  (∀ (event : DragEndEvent) (w w' : World DnDKitTable.State),
     DnDKitTable.handleDragEnd p event w = Returned tt w' →
     DnDKitTable.activeId (state w') = None
     ∧ DnDKitTable.sorting (state w') = DnDKitTable.sorting (state w))
  ∧ (∀ (event : DragEndEvent) (w w' : World VirtuosoTable.State2),
       VirtuosoTable.handleDragEnd2 p event w = Returned tt w' →
       VirtuosoTable.sorting2 (state w') = VirtuosoTable.sorting2 (state w)
       ∧ match over event with
         | Some _ => VirtuosoTable.activeId (state w') = None
         | None => w' = w
         end).
Proof.
  split.
  - intros event w w' Hrun. unfold DnDKitTable.handleDragEnd in Hrun.
    apply bind_inv in Hrun as ([] & w1 & Hbody & Hset).
    unfold DnDKitTable.setActiveId, bind, get, put in Hset.
    injection Hset as <-. cbn [state DnDKitTable.activeId DnDKitTable.sorting].
    split; [done|].
    destruct (over event) as [b|]; [|by injection Hbody as <-].
    destruct (bool_decide (active event ≠ b)); [|by injection Hbody as <-].
    destruct (heap w !! data p) as [arr|] eqn:Hd.
    + by destruct (dnd_move_inv p _ _ w w1 arr Hd Hbody) as (i & j & ->).
    + unfold findIndex, bind, read in Hbody. by rewrite Hd in Hbody.
  - intros event w w' Hrun. unfold VirtuosoTable.handleDragEnd2 in Hrun.
    destruct (over event) as [b|]; [|by (unfold ret in Hrun; simplify_eq)].
    apply bind_inv in Hrun as ([] & w1 & Hbody & Hset).
    unfold VirtuosoTable.setActiveId, bind, get, put in Hset.
    injection Hset as <-.
    cbn [state VirtuosoTable.activeId VirtuosoTable.sorting2].
    split; [|done].
    destruct (bool_decide (active event ≠ b));
      [|by (unfold ret in Hbody; simplify_eq)].
    destruct (heap w !! data p) as [arr|] eqn:Hd; cycle 1.
    { unfold findIndex, bind, read in Hbody. by rewrite Hd in Hbody. }
    destruct (Js.findIndex (id_is (active event)) arr) as [i|] eqn:Hi;
      cycle 1.
    { erewrite bind_throw in Hbody by (by eapply findIndex_throw). done. }
    erewrite bind_run in Hbody by (by eapply findIndex_run).
    destruct (Js.findIndex (id_is b) arr) as [j|] eqn:Hj; cycle 1.
    { erewrite bind_throw in Hbody by (by eapply findIndex_throw). done. }
    erewrite bind_run in Hbody by (by eapply findIndex_run).
    destruct (onReorder p); [|by (unfold ret in Hbody; simplify_eq)].
    erewrite bind_run in Hbody by (by eapply arrayMove_run).
    unfold call_onReorder in Hbody. by simplify_eq.
Qed.

(** ** App *)

Section app.
Context `{TableEngine}.
Variable drawn : nat → list (string * string).
Variable alloc : nat → positive.

Lemma generateData_ids (count : nat) :
  id <$> App.generateData drawn alloc count
  = (λ index, NumId (Z.of_nat index + 1)) <$> seq 0 count.
Proof. unfold App.generateData. by rewrite <- list_fmap_compose. Qed.

Lemma generateData_NoDup_id (count : nat) :
  NoDup (id <$> App.generateData drawn alloc count).
Proof.
  rewrite generateData_ids. apply NoDup_fmap_2; [|apply NoDup_seq].
  intros i j Hij. injection Hij. lia.
Qed.



Lemma App_start_holds count :
  App_holds drawn alloc count (App.start drawn alloc count).
Proof.
  exists (App.generateData drawn alloc count). split; [|done].
  unfold App.start, App.current_data. cbn [App.table heap reorders last].
  apply lookup_singleton_eq.
Qed.

Lemma App_headerClick_run col (w : World ThirdTable.State) :
  ∃ st, App.headerClick col w
        = Returned tt (mkWorld (heap w) (reorders w) st).
Proof.
  exists (if enableSorting col
          then ThirdTable.mkState
                 (toggleSorting col (ThirdTable.sorting (state w)))
          else state w).
  unfold App.headerClick, bind, get, put, ret.
  destruct (enableSorting col); [reflexivity|]. by destruct w.
Qed.

Lemma App_step_holds count s e :
  App_holds drawn alloc count s →
  ∃ s', App.step s e = Some s' ∧ App_holds drawn alloc count s'.
Proof.
  intros (rows' & Hd & Hperm). destruct e as [|col|event k]; cbn [App.step].
  - eexists. split; [done|]. by exists rows'.
  - destruct (App_headerClick_run col (App.table s)) as [st ->].
    eexists. split; [done|]. by exists rows'.
  - destruct (ThirdTable_outcome_rows (App.props s) rows' event k
                (App.table s) Hd)
      as (w' & -> & [->|(rows'' & Hperm' & ->)]).
    + eexists. split; [done|]. by exists rows'.
    + eexists. split; [done|]. exists rows''. split; [|by rewrite Hperm'].
      unfold App.current_data, committed.
      cbn [App.table App.props onReorder heap reorders].
      rewrite last_snoc. cbn [default]. apply lookup_insert_eq.
Qed.

(** X14. [App] with its table: after any run of button clicks, header
    clicks and drops (with any text, at any index) the array in [data]
    holds exactly the generated rows, in some order, so the identifiers
    stay unique; and no event makes a handler raise. *)
Theorem App_keeps_the_rows (count : nat) (s : App.State) :
  App.reachable (App.start drawn alloc count) s →
  (∃ rows',
     heap (App.table s) !! App.current_data s = Some (obj <$> rows')
     ∧ rows' ≡ₚ App.generateData drawn alloc count
     ∧ NoDup (id <$> rows'))
  ∧ ∀ e, is_Some (App.step s e).
Proof.
  intros Hreach.
  assert (App_holds drawn alloc count s) as Hs.
  { induction Hreach as [|s e s' _ IH Hstep]; [apply App_start_holds|].
    destruct (App_step_holds count s e IH) as (s'' & Hstep' & Hs'').
    congruence. }
  split.
  - destruct Hs as (rows' & Hd & Hperm). exists rows'.
    repeat (split; [done|]). rewrite Hperm.
    apply generateData_NoDup_id.
  - intros e. destruct (App_step_holds count s e Hs) as (s' & -> & _).
    by eexists.
Qed.
End app.

(** X15. With no sort active the three ways of writing the handler agree:
    for rows that are different objects with identifiers that are strings
    or safe integers and print differently, the drop of the row at [i] on the row at [j] makes
    SecondTable.tsx, the ThirdVirtualizedDraggableTable and WindowTable.tsx
    report the same array, [data] with the row moved from [i] to [j]. *)
Theorem tables_agree_when_unsorted `{TableEngine} (p : Props)
    (rows : list Row) (i j : nat) (ra rb : Row)
    (w2 : World SecondTable.State) (w3 : World ThirdTable.State)
    (ww : World WindowTable.State) :
  heap w2 !! data p = Some (obj <$> rows) →
  heap w3 !! data p = Some (obj <$> rows) →
  heap ww !! data p = Some (obj <$> rows) →
  WindowTable.sorting (state ww) = [] →
  safe_rows rows →
  NoDup (label <$> rows) → NoDup (ref <$> rows) →
  rows !! i = Some ra → rows !! j = Some rb → i ≠ j →
  SecondTable.handleDragEnd p (mkDragEnd (id ra) (Some (id rb))) w2
  = Returned tt (committed p w2 (obj <$> reinsert i j ra rows) (state w2))
  ∧ ThirdTable.handleDragEnd p (mkDragEvent (label ra)) (Z.of_nat j) w3
    = Returned tt (committed p w3 (obj <$> reinsert i j ra rows) (state w3))
  ∧ WindowTable.handleDragEnd p (mkDragEvent (label ra)) (Z.of_nat j) ww
    = Returned tt
        (committed p ww (obj <$> reinsert i j ra rows)
           (WindowTable.mkState [])).
Proof.
  intros Hd2 Hd3 Hdw Hso _ Hlabels Hrefs Hi Hj Hij.
  assert (NoDup (id <$> rows)) as Hids.
  { apply (NoDup_fmap_1 String_). by rewrite <- list_fmap_compose. }
  pose proof (lookup_lt_Some _ _ _ Hj) as Hjlen.
  split; [|split].
  - assert (id ra ≠ id rb) as Hab.
    { intros Heq. apply Hij. eapply (NoDup_lookup (id <$> rows)); [done| |].
      - by rewrite list_lookup_fmap, Hi.
      - by rewrite list_lookup_fmap, Hj, Heq. }
    rewrite SecondTable_unfold, bool_decide_eq_true_2 by done.
    rewrite (dnd_move_run p _ _ w2 _ _ _ Hd2 (findIndex_rows _ rows)
               (findIndex_rows _ rows)).
    rewrite !position_first_index.
    rewrite (first_index_unique id rows i ra Hids Hi).
    rewrite (first_index_unique id rows j rb Hids Hj).
    rewrite (move_splice_valid _ i j (obj ra)).
    + by rewrite fmap_reinsert.
    + by rewrite list_lookup_fmap, Hi.
    + by rewrite length_fmap.
  - rewrite (ThirdTable_drop_run p rows i ra _ w3 Hd3 Hlabels Hi) by lia.
    rewrite bool_decide_eq_false_2 by lia.
    rewrite Nat2Z.id. by replace (j `min` (length rows - 1))%nat with j by lia.
  - destruct (WindowTable_resolves_run p rows rows ra rb j ww Hdw)
      as (i' & j' & Hi' & Hj' & ->); try done.
    + by rewrite Hso.
    + by eapply list_elem_of_lookup_2.
    + intros Heq. apply Hij. apply (NoDup_fmap_1 ref) in Hrefs.
      rewrite Heq in Hi. exact (NoDup_lookup rows i j rb Hrefs Hi Hj).
    + apply (NoDup_fmap_1 ref) in Hrefs.
      assert (i' = i) as -> by exact (NoDup_lookup rows i' i ra Hrefs Hi' Hi).
      by assert (j' = j) as ->
        by exact (NoDup_lookup rows j' j rb Hrefs Hj' Hj).
Qed.

(** ** The theorems above at the scenario *)

Lemma ThirdTable_keeps_the_rows_witness :
  ∃ w', ThirdTable.handleDragEnd props0 (mkDragEvent "2") 0 third_sorted
        = Returned tt w'
        ∧ (w' = third_sorted
           ∨ ∃ rows', rows' ≡ₚ rows123
                      ∧ w' = committed props0 third_sorted (obj <$> rows')
                               (state third_sorted)).
Proof.
  apply (ThirdTable_keeps_the_rows props0 rows123 (mkDragEvent "2") 0
           third_sorted).
  reflexivity.
Defined.

Lemma ThirdTable_unknown_text_witness :
  ThirdTable.handleDragEnd props0 (mkDragEvent "9") 0 third_sorted
  = Returned tt third_sorted.
Proof.
  apply (ThirdTable_unknown_text props0 rows123 "9" 0 third_sorted).
  - reflexivity.
  - apply (bool_decide_unpack _). by vm_compute.
  - apply (bool_decide_unpack _). by vm_compute.
Defined.

Lemma ThirdTable_drop_at_index_witness :
  ThirdTable.handleDragEnd props0 (mkDragEvent (label r1)) 7 third_sorted
  = if bool_decide (7 = Z.of_nat 0) then Returned tt third_sorted
    else Returned tt
           (committed props0 third_sorted
              (obj <$> reinsert 0 (Z.to_nat 7 `min` (length rows123 - 1))
                         r1 rows123)
              (state third_sorted)).
Proof.
  apply (ThirdTable_drop_at_index props0 rows123 0 r1 7 third_sorted).
  - reflexivity.
  - apply (bool_decide_unpack _). by vm_compute.
  - apply (bool_decide_unpack _). by vm_compute.
  - reflexivity.
  - lia.
Defined.

Lemma WindowTable_commit_clears_sort_witness :
  world_after (@WindowTable.handleDragEnd by_id props0 (mkDragEvent "3") 2)
    window_sorted = window_sorted
  ∨ ∃ arr',
      world_after (@WindowTable.handleDragEnd by_id props0 (mkDragEvent "3") 2)
        window_sorted
      = committed props0 window_sorted arr' (WindowTable.mkState []).
Proof.
  apply (@WindowTable_commit_clears_sort by_id props0 (mkDragEvent "3") 2
           window_sorted).
  vm_compute. reflexivity.
Defined.

Lemma VirtualizedTable_drop_resets_witness :
  world_after
    (@VirtualizedTable.handleDragEnd by_id props0 (mkDragEvent "3") 2)
    virtualized_sorted
  = mkWorld (heap virtualized_sorted) (reorders virtualized_sorted)
      (VirtualizedTable.mkState
         (VirtualizedTable.sorting (state virtualized_sorted))
         false None None)
  ∨ ∃ arr',
      world_after
        (@VirtualizedTable.handleDragEnd by_id props0 (mkDragEvent "3") 2)
        virtualized_sorted
      = committed props0 virtualized_sorted arr'
          (VirtualizedTable.mkState [] false None None).
Proof.
  apply (@VirtualizedTable_drop_resets by_id props0 (mkDragEvent "3") 2
           virtualized_sorted).
  vm_compute. reflexivity.
Defined.

Lemma WindowTable_resolves_in_data_witness :
  ∃ i j,
    rows123 !! i = Some r3 ∧ rows123 !! j = Some r1
    ∧ @WindowTable.handleDragEnd by_id props0 (mkDragEvent (label r3))
        (Z.of_nat 2) window_sorted
      = Returned tt
          (committed props0 window_sorted (obj <$> reinsert i j r3 rows123)
             (WindowTable.mkState [])).
Proof.
  apply (@WindowTable_resolves_in_data by_id props0 rows123 [r3; r2; r1]
           r3 r1 2 window_sorted).
  - reflexivity.
  - reflexivity.
  - apply (bool_decide_unpack _). by vm_compute.
  - exact (reverse_Permutation rows123).
  - apply (bool_decide_unpack _). by vm_compute.
  - apply (bool_decide_unpack _). by vm_compute.
  - apply (bool_decide_unpack _). by vm_compute.
  - reflexivity.
  - discriminate.
Defined.


Lemma VirtualizedTable_drag_and_drop_witness :
  ∃ m1,
    @VirtualizedTable.step by_id props0 machine0
      (VirtualizedTable.DragStart (Z.of_nat 0)) = Some m1
    ∧ VirtualizedTable.store m1 = label r1
    ∧ VirtualizedTable.isDragging (state (VirtualizedTable.world m1)) = true
    ∧ @VirtualizedTable.step by_id props0 m1
        (VirtualizedTable.Drop (mkDragEvent (VirtualizedTable.store m1))
           (Z.of_nat 2))
      = Some
          (VirtualizedTable.mkMachine
             (committed props0 (VirtualizedTable.world machine0)
                (obj <$> reinsert 0 2 r1 rows123) VirtualizedTable.initial)
             (label r1)).
Proof.
  apply (@VirtualizedTable_drag_and_drop by_id props0 rows123 0 2 r1 r3
           machine0).
  - reflexivity.
  - reflexivity.
  - apply (bool_decide_unpack _). by vm_compute.
  - apply (bool_decide_unpack _). by vm_compute.
  - apply (bool_decide_unpack _). by vm_compute.
  - reflexivity.
  - reflexivity.
  - lia.
Defined.

Lemma DnDKitTable2_keeps_the_rows_witness :
  ∃ w',
    DnDKitTable.handleDragEnd2 props0 (mkDragEnd (NumId 1) (Some (NumId 3)))
      dndkit_unsorted = Returned tt w'
    ∧ (w' = dndkit_unsorted
       ∨ ∃ rows', rows' ≡ₚ rows123
                  ∧ w' = committed props0 dndkit_unsorted (obj <$> rows')
                           (state dndkit_unsorted)).
Proof.
  apply (DnDKitTable2_keeps_the_rows props0 rows123
           (mkDragEnd (NumId 1) (Some (NumId 3))) dndkit_unsorted).
  reflexivity.
Defined.

Lemma SecondTable_unknown_target_witness :
  ∃ i ra,
    rows123 !! i = Some ra ∧ id ra = NumId 1
    ∧ SecondTable.handleDragEnd props0 (mkDragEnd (NumId 1) (Some (NumId 9)))
        second_unsorted
      = Returned tt
          (committed props0 second_unsorted
             (obj <$> reinsert i (length rows123 - 2) ra rows123)
             (state second_unsorted)).
Proof.
  apply (SecondTable_unknown_target props0 rows123 (NumId 1) (NumId 9)
           second_unsorted).
  - reflexivity.
  - apply (bool_decide_unpack _). by vm_compute.
  - apply (bool_decide_unpack _). by vm_compute.
Defined.

Lemma SecondTable_unknown_dragged_witness :
  ∃ k,
    SecondTable.handleDragEnd props0 (mkDragEnd (NumId 9) (Some (NumId 1)))
      second_unsorted
    = Returned tt
        (committed props0 second_unsorted
           ((obj <$> take k (take (length rows123 - 1) rows123))
            ++ undefined
            :: (obj <$> drop k (take (length rows123 - 1) rows123)))
           (state second_unsorted)).
Proof.
  apply (SecondTable_unknown_dragged props0 rows123 (NumId 9) (NumId 1)
           second_unsorted).
  - reflexivity.
  - apply (bool_decide_unpack _). by vm_compute.
  - discriminate.
Defined.

Lemma drag_end_and_activeId_witness :
  (DnDKitTable.activeId
     (state
        (world_after
           (DnDKitTable.handleDragEnd props0
              (mkDragEnd (NumId 1) (Some (NumId 3)))) dndkit_dragging))
   = None
   ∧ DnDKitTable.sorting
       (state
          (world_after
             (DnDKitTable.handleDragEnd props0
                (mkDragEnd (NumId 1) (Some (NumId 3)))) dndkit_dragging))
     = DnDKitTable.sorting (state dndkit_dragging))
  ∧ (VirtuosoTable.sorting2
       (state
          (world_after
             (VirtuosoTable.handleDragEnd2 props0
                (mkDragEnd (NumId 1) (Some (NumId 3)))) virtuoso_unsorted))
     = VirtuosoTable.sorting2 (state virtuoso_unsorted)
     ∧ VirtuosoTable.activeId
         (state
            (world_after
               (VirtuosoTable.handleDragEnd2 props0
                  (mkDragEnd (NumId 1) (Some (NumId 3))))
               virtuoso_unsorted))
       = None).
Proof.
  split.
  - apply (proj1 (drag_end_and_activeId props0)
             (mkDragEnd (NumId 1) (Some (NumId 3))) dndkit_dragging).
    vm_compute. reflexivity.
  - apply (proj2 (drag_end_and_activeId props0)
             (mkDragEnd (NumId 1) (Some (NumId 3))) virtuoso_unsorted).
    vm_compute. reflexivity.
Defined.

Lemma App_keeps_the_rows_witness :
  (∃ rows',
     heap (App.table app3_after) !! App.current_data app3_after
     = Some (obj <$> rows')
     ∧ rows' ≡ₚ App.generateData no_fields addr 3
     ∧ NoDup (id <$> rows'))
  ∧ ∀ e, is_Some (@App.step by_id app3_after e).
Proof.
  apply (@App_keeps_the_rows by_id no_fields addr 3 app3_after).
  apply (@App.reach_step by_id (App.start no_fields addr 3)
           (App.start no_fields addr 3) (App.Drop (mkDragEvent "2") 0)
           app3_after).
  - apply App.reach_init.
  - vm_compute. reflexivity.
Defined.

Lemma tables_agree_when_unsorted_witness :
  SecondTable.handleDragEnd props0 (mkDragEnd (id r1) (Some (id r3)))
    second_unsorted
  = Returned tt
      (committed props0 second_unsorted (obj <$> reinsert 0 2 r1 rows123)
         (state second_unsorted))
  ∧ ThirdTable.handleDragEnd props0 (mkDragEvent (label r1)) (Z.of_nat 2)
      third_unsorted
    = Returned tt
        (committed props0 third_unsorted (obj <$> reinsert 0 2 r1 rows123)
           (state third_unsorted))
  ∧ @WindowTable.handleDragEnd by_id props0 (mkDragEvent (label r1))
      (Z.of_nat 2) window_unsorted
    = Returned tt
        (committed props0 window_unsorted (obj <$> reinsert 0 2 r1 rows123)
           (WindowTable.mkState [])).
Proof.
  apply (@tables_agree_when_unsorted by_id props0 rows123 0 2 r1 r3
           second_unsorted third_unsorted window_unsorted).
  - reflexivity.
  - reflexivity.
  - reflexivity.
  - reflexivity.
  - apply (bool_decide_unpack _). by vm_compute.
  - apply (bool_decide_unpack _). by vm_compute.
  - apply (bool_decide_unpack _). by vm_compute.
  - reflexivity.
  - reflexivity.
  - lia.
Defined.
